(** * Block-range search service: shard arithmetic, start-block resolution,
      archive stream validation and fork resolution.

    Shallow embedding of the Go sources.  Unsigned 64-bit quantities
    ([uint64]) are integers in [Z] reduced modulo [2^64] wherever the Go
    arithmetic can wrap; conversions to and from [int64] are the
    two's-complement reinterpretations.  A Go run-time panic is an explicit
    outcome. *)

From Stdlib Require Import ZArith List String Ascii Bool Lia.
From Stdlib Require Import Sorting.Sorted Sorting.Permutation DecimalString.
From stdpp Require Import base gmap strings sorting.

Import ListNotations.
Local Open Scope Z_scope.

(** ** Machine integers *)

Module U64.

Definition modulus : Z := 2 ^ 64.
Definition half : Z := 2 ^ 63.
Definition MaxUint64 : Z := modulus - 1.

Definition in_range (z : Z) : Prop := 0 <= z < modulus.
Definition in_range_i64 (z : Z) : Prop := - half <= z < half.

(** Result of a [uint64] operation: the low 64 bits. *)
Definition wrap (z : Z) : Z := z mod modulus.

Definition add (a b : Z) : Z := wrap (a + b).
Definition sub (a b : Z) : Z := wrap (a - b).

(** [int64(x)] for [x : uint64]. *)
Definition to_int64 (z : Z) : Z := if z <? half then z else z - modulus.

(** [uint64(x)] for [x : int64]. *)
Definition of_int64 (z : Z) : Z := wrap z.

(** Result of an [int64] operation: two's-complement wrap-around. *)
Definition wrap_i64 (z : Z) : Z := to_int64 (wrap z).

End U64.

(** Outcome of a Go call that may panic. *)
Inductive outcome (A : Type) : Type :=
| Ret (a : A)
| Panic (msg : string).
Arguments Ret {A} a.
Arguments Panic {A} msg.

Definition divide_by_zero : string := "runtime error: integer divide by zero".
Definition index_out_of_range : string :=
  "runtime error: index out of range [0] with length 0".

(** [fmt.Sprintf("%d", n)]. *)
Definition sprint_d (n : Z) : string := NilZero.string_of_int (Z.to_int n).

(** ** Shard model (BigQuery shard index and next-base scan) *)

Module ShardModel.

(** The potential block range of a shard, with the documents appended to
    its scratch file so far. *)
Record BigQueryShardIndex : Type := {
  StartBlock : Z;  (* inclusive *)
  EndBlock : Z;    (* inclusive *)
  documents : list string
}.

Definition newShardIndex (baseBlockNum shardSize : Z) : BigQueryShardIndex :=
  let shard := {| StartBlock := baseBlockNum;
                  EndBlock := U64.sub (U64.add baseBlockNum shardSize) 1;
                  documents := [] |} in
  if (baseBlockNum =? 0) && (shardSize =? 0)
  then {| StartBlock := StartBlock shard; EndBlock := 0;
          documents := documents shard |}
  else shard.

Definition containsBlockNum (s : BigQueryShardIndex) (blockNum : Z) : bool :=
  (StartBlock s <=? blockNum) && (blockNum <=? EndBlock s).

(** [Index] appends one document to the scratch file of the shard (the
    failures of the writer left aside). *)
Definition Index (s : BigQueryShardIndex) (doc : string) : BigQueryShardIndex :=
  {| StartBlock := StartBlock s; EndBlock := EndBlock s;
     documents := documents s ++ [doc] |}.

(** [startBlock - (startBlock % shardSize)] on [uint64]. *)
Definition alignStartBlock (shardSize startBlock : Z) : outcome Z :=
  if shardSize =? 0 then Panic divide_by_zero
  else Ret (U64.sub startBlock (startBlock mod shardSize)).

Definition is_digit (c : ascii) : bool :=
  let n := Z.of_nat (nat_of_ascii c) in (48 <=? n) && (n <=? 57).

Definition digit_value (c : ascii) : Z := Z.of_nat (nat_of_ascii c) - 48.

(** Splits [n] leading decimal digits off [s]. *)
Fixpoint take_digits (n : nat) (s : string) : option (string * string) :=
  match n with
  | O => Some (EmptyString, s)
  | S n' =>
      match s with
      | String c s' =>
          if is_digit c then
            match take_digits n' s' with
            | Some (d, rest) => Some (String c d, rest)
            | None => None
            end
          else None
      | EmptyString => None
      end
  end.

(** A match of [(\d{10})\.avro] starting at the head of [s]. *)
Definition match_here (s : string) : option string :=
  match take_digits 10 s with
  | Some (d, rest) => if String.prefix ".avro" rest then Some d else None
  | None => None
  end.

(** [remotePathRE.FindStringSubmatch(file)], keeping the capture group
    [match[1]]: the leftmost place where the pattern matches. *)
Fixpoint FindStringSubmatch (s : string) : option string :=
  match match_here s with
  | Some d => Some d
  | None =>
      match s with
      | String _ s' => FindStringSubmatch s'
      | EmptyString => None
      end
  end.

(** A name that is exactly ten digits followed by [.avro]. *)
Definition exact_name (s : string) : bool :=
  match take_digits 10 s with
  | Some (_, rest) => String.eqb rest ".avro"
  | None => false
  end.

Fixpoint parse_decimal (acc : Z) (s : string) : Z :=
  match s with
  | EmptyString => acc
  | String c s' => parse_decimal (10 * acc + digit_value c) s'
  end.

(** Modelled from the spec: [startBlockFromFileName] is not part of the
    sources at hand; a shard is named by its base, zero-padded to ten
    decimal digits, so the captured digits are read back as that number. *)
Definition startBlockFromFileName (digits : string) : Z := parse_decimal 0 digits.

(** The body of the [for _, file := range remote] loop;
    [nextStartBlockNum] is the loop-carried variable. *)
Fixpoint scanRemote (shardSize startBlockNum : Z) (remote : list string)
    (nextStartBlockNum : Z) : Z :=
  match remote with
  | [] => nextStartBlockNum
  | file :: rest =>
      match FindStringSubmatch file with
      | None => scanRemote shardSize startBlockNum rest nextStartBlockNum
      | Some m =>
          let fileStartBlock := startBlockFromFileName m in
          if fileStartBlock <=? startBlockNum
          then scanRemote shardSize startBlockNum rest nextStartBlockNum
          else if fileStartBlock >? U64.add nextStartBlockNum shardSize
          then nextStartBlockNum
          else scanRemote shardSize startBlockNum rest fileStartBlock
      end
  end.

(** [listing] is the result of [indexesStore.ListFiles]: [None] when the
    store reports an error, in which case the start block is returned as
    given. *)
Definition NextBaseBlockAfter (shardSize : Z) (listing : option (list string))
    (startBlockNum : Z) : outcome Z :=
  match listing with
  | None => Ret startBlockNum
  | Some remote =>
      alignStartBlock shardSize (scanRemote shardSize startBlockNum remote startBlockNum)
  end.

(** The chain of the specification: the bases read from the names, those
    above the start, followed while each is within one shard of the
    previous one. *)
Definition basesOf (remote : list string) : list Z :=
  flat_map (fun file => match FindStringSubmatch file with
                        | Some m => [startBlockFromFileName m]
                        | None => []
                        end) remote.

Fixpoint followChain (shardSize previous : Z) (candidates : list Z) : Z :=
  match candidates with
  | [] => previous
  | c :: cs =>
      if c >? U64.add previous shardSize then previous
      else followChain shardSize c cs
  end.

Definition candidatesAfter (base : Z) (remote : list string) : list Z :=
  List.filter (fun b => negb (b <=? base)) (basesOf remote).

(** The next base as the specification words it: only names that are
    exactly ten digits and [.avro] count. *)
Definition basesOfExact (remote : list string) : list Z :=
  flat_map (fun file => if exact_name file
                        then match FindStringSubmatch file with
                             | Some m => [startBlockFromFileName m]
                             | None => []
                             end
                        else []) remote.

Definition nextBaseAfter_spec (shardSize : Z) (remote : list string) (base : Z)
    : outcome Z :=
  alignStartBlock shardSize
    (followChain shardSize base
       (List.filter (fun b => negb (b <=? base)) (basesOfExact remote))).

Definition gapListing : list string :=
  ["0000000000.avro"; "0000005000.avro"; "0000015000.avro"]%string.

Definition prefixedListing : list string :=
  ["bigquery-shards-5000/0000000000.avro";
   "bigquery-shards-5000/0000005000.avro"]%string.

End ShardModel.

(** ** Errors *)

Inductive Code : Type :=
| Canceled | InvalidArgument | NotFound | OutOfRange | Internal | Unavailable.

(** Go [error] values, by the way they are built. *)
Inductive error : Type :=
| Errorf (msg : string)               (* fmt.Errorf *)
| Status (code : Code) (msg : string) (* derr.Status, derr.Statusf *)
| ContextCanceled                     (* context.Canceled *)
| ErrEndOfRange.                      (* search.ErrEndOfRange *)

Definition codeName (code : Code) : string :=
  match code with
  | Canceled => "Canceled"
  | InvalidArgument => "InvalidArgument"
  | NotFound => "NotFound"
  | OutOfRange => "OutOfRange"
  | Internal => "Internal"
  | Unavailable => "Unavailable"
  end.

(** [err.Error()]; a gRPC status renders its code before its message. *)
Definition errorMessage (e : error) : string :=
  match e with
  | Errorf msg => msg
  | Status code msg => "rpc error: code = " +:+ codeName code +:+ " desc = " +:+ msg
  | ContextCanceled => "context canceled"
  | ErrEndOfRange => "end of block range"
  end.

Definition isContextCanceled (e : error) : bool :=
  match e with ContextCanceled => true | _ => false end.

(** ** Indexer bootstrap *)

Module Indexer.

Record Indexer : Type := {
  StartBlockNum : Z;
  StopBlockNum : Z;
  shardSize : Z
}.

Definition boundaryPrefix : string :=
  "indexer only starts RIGHT BEFORE the index boundaries".

Definition boundaryError (startBlockNum : Z) : error :=
  Errorf (boundaryPrefix
          +:+ ", did you specify an irreversible block_id with a round number? It says "
          +:+ sprint_d startBlockNum).

(** [pipelineBootstrap] stands for [i.pipeline.Bootstrap].  The remainder
    is taken before the comparison with 1, so a zero shard size panics for
    every start block. *)
Definition Bootstrap (pipelineBootstrap : Z -> option error) (i : Indexer)
    (startBlockNum : Z) : outcome (Indexer * option error) :=
  let i' := {| StartBlockNum := startBlockNum;
               StopBlockNum := StopBlockNum i;
               shardSize := shardSize i |} in
  if shardSize i' =? 0 then Panic divide_by_zero
  else if negb (StartBlockNum i' mod shardSize i' =? 0) && negb (StartBlockNum i' =? 1)
  then Ret (i', Some (boundaryError (StartBlockNum i')))
  else Ret (i', pipelineBootstrap (StartBlockNum i')).

(** The result is an error whose message begins with the boundary text. *)
Definition failsOnBoundary (r : outcome (Indexer * option error)) : Prop :=
  exists i' e, r = Ret (i', Some e) /\ String.prefix boundaryPrefix (errorMessage e) = true.

End Indexer.

(** ** Archive application: start-block resolution *)

Module ArchiveApp.

Definition misalignedError (startBlock shardSize : Z) : error :=
  Errorf ("start block " +:+ sprint_d startBlock
          +:+ " misaligned with shard size " +:+ sprint_d shardSize).

Definition tooLargeError (startBlock absoluteStartBlock : Z) : error :=
  Errorf ("relative start block " +:+ sprint_d startBlock
          +:+ "  is to large, cannot resolve to a negative start block "
          +:+ sprint_d absoluteStartBlock).

(** [startBlock] is an [int64]; [shardSize] and [irrBlockNum] are
    [uint64].  Go's [%] on signed operands truncates toward zero
    ([Z.rem]). *)
Definition resolveStartBlock (startBlock shardSize irrBlockNum : Z)
    : outcome (Z * option error) :=
  let size := U64.to_int64 shardSize in
  if 0 <=? startBlock then
    if size =? 0 then Panic divide_by_zero
    else if negb (Z.rem startBlock size =? 0)
    then Ret (0, Some (misalignedError startBlock shardSize))
    else Ret (U64.of_int64 startBlock, None)
  else
    let absoluteStartBlock := U64.wrap_i64 (U64.to_int64 irrBlockNum + startBlock) in
    if size =? 0 then Panic divide_by_zero
    else
      let absoluteStartBlock :=
        U64.wrap_i64 (absoluteStartBlock - Z.rem absoluteStartBlock size) in
      if absoluteStartBlock <? 0
      then Ret (0, Some (tooLargeError startBlock absoluteStartBlock))
      else Ret (U64.of_int64 absoluteStartBlock, None).

Definition getBlockCount (startBlock : Z) : Z * option error :=
  if 0 <=? startBlock
  then (0, Some (Errorf ("start block " +:+ sprint_d startBlock
                         +:+ " must be a relative value (-) to yield a block count")))
  else (U64.of_int64 (U64.wrap_i64 (-1 * startBlock)), None).

End ArchiveApp.

(** ** Archive backend: the [StreamMatches] gRPC handler *)

Module ArchiveBackend.

Record BackendRequest : Type := {
  Query : string;
  LowBlockNum : Z;
  HighBlockNum : Z;
  Descending : bool;
  WithReversible : bool;
  StopAtVirtualHead : bool;
  LiveMarkerInterval : Z;
  NavigateFromBlockID : string;
  NavigateFromBlockNum : Z
}.

(** What a call does that its caller can observe, in order. *)
Inductive effect (SearchMatch : Type) : Type :=
| ParseQuery (query : string)      (* search.NewParsedQuery was called *)
| RunQuery                         (* go archiveQuery.run() *)
| Sent (response : SearchMatch)    (* stream.Send succeeded *)
| SetTrailer (lastBlockRead : string).
Arguments ParseQuery {SearchMatch} query.
Arguments RunQuery {SearchMatch}.
Arguments Sent {SearchMatch} response.
Arguments SetTrailer {SearchMatch} lastBlockRead.

(** What one turn of the [select] receives, with the answers of the
    surroundings at that moment. *)
Inductive event (Match : Type) : Type :=
| ErrorsRecv (err : option error) (ctxCanceled : bool)
| ResultsRecv (m : Match) (sendErr : option error)
| ResultsClosed (lastBlockRead : Z).
Arguments ErrorsRecv {Match} err ctxCanceled.
Arguments ResultsRecv {Match} m sendErr.
Arguments ResultsClosed {Match} lastBlockRead.

(** The collaborators of the handler that live outside this file. *)
Record ArchiveBackend (Match SearchMatch ParsedQuery : Type) : Type := {
  NewParsedQuery : string -> ParsedQuery + error;
  checkBoundaries : BackendRequest -> option error;
  archiveSearchMatchToProto : Match -> SearchMatch + error
}.
Arguments NewParsedQuery {Match SearchMatch ParsedQuery} _ _.
Arguments checkBoundaries {Match SearchMatch ParsedQuery} _ _.
Arguments archiveSearchMatchToProto {Match SearchMatch ParsedQuery} _ _.

Section Handler.
Context {Match SearchMatch ParsedQuery : Type}.
Variable b : ArchiveBackend Match SearchMatch ParsedQuery.

Definition unsupported (what : string) : error :=
  Errorf ("archive backend does not support " +:+ what).

(** The first of the five guards that fires, if any. *)
Definition rejectUnsupported (req : BackendRequest) : option error :=
  if WithReversible req then Some (unsupported "WithReversible == true")
  else if StopAtVirtualHead req then Some (unsupported "StopAtVirtualHead == true")
  else if negb (LiveMarkerInterval req =? 0)
  then Some (unsupported "LiveMarkerInterval != 0")
  else if negb (String.eqb (NavigateFromBlockID req) EmptyString)
  then Some (unsupported "NavigateFromBlockID != ''")
  else if negb (NavigateFromBlockNum req =? 0)
  then Some (unsupported "NavigateFromBlockNum != 0")
  else None.

(** The [for { select { ... } }] loop.  The result is the effects of the
    loop, the value of the trailer entry when the loop is left, and the
    returned error; [None] when the events end before the loop is left. *)
Fixpoint streamLoop (events : list (event Match))
    : option (list (effect SearchMatch) * string * option error) :=
  match events with
  | [] => None
  | ErrorsRecv (Some err) ctxCanceled :: _ =>
      if ctxCanceled then Some ([], "-1"%string, None)
      else Some ([], "-1"%string, Some err)
  | ErrorsRecv None _ :: _ => Some ([], "-1"%string, None)
  | ResultsClosed lastBlockRead :: _ =>
      Some ([], sprint_d lastBlockRead, None)
  | ResultsRecv m sendErr :: rest =>
      match archiveSearchMatchToProto b m with
      | inr err =>
          Some ([], "-1"%string,
                Some (Errorf ("unable to obtain search match proto: "
                              +:+ errorMessage err)))
      | inl response =>
          match sendErr with
          | Some err => Some ([], "-1"%string, Some err)
          | None =>
              match streamLoop rest with
              | Some (effs, trailer, r) => Some (Sent response :: effs, trailer, r)
              | None => None
              end
          end
      end
  end.

(** The deferred [stream.SetTrailer(trailer)] is registered only once the
    query is parsed; it runs when the function is left after that. *)
Definition StreamMatches (req : BackendRequest) (events : list (event Match))
    : option (list (effect SearchMatch) * option error) :=
  match rejectUnsupported req with
  | Some err => Some ([], Some err)
  | None =>
      match NewParsedQuery b (Query req) with
      | inr err => Some ([ParseQuery (Query req)], Some err)
      | inl bquery =>
          match checkBoundaries b req with
          | Some err =>
              Some ([ParseQuery (Query req); SetTrailer "-1"], Some err)
          | None =>
              match streamLoop events with
              | Some (effs, trailer, r) =>
                  Some (ParseQuery (Query req) :: RunQuery :: effs
                          ++ [SetTrailer trailer], r)
              | None => None
              end
          end
      end
  end.

End Handler.

(** The trailer a finished call leaves on the stream. *)
Definition trailerOf {SearchMatch : Type} (effs : list (effect SearchMatch))
    : option string :=
  fold_left (fun acc e => match e with SetTrailer v => Some v | _ => acc end)
            effs None.

Definition sentOf {SearchMatch : Type} (effs : list (effect SearchMatch))
    : list SearchMatch :=
  flat_map (fun e => match e with Sent r => [r] | _ => [] end) effs.

Definition parsedIn {SearchMatch : Type} (effs : list (effect SearchMatch)) : bool :=
  existsb (fun e => match e with ParseQuery _ => true | _ => false end) effs.

(** The five fields an archive backend does not serve are all zero-valued. *)
Definition allZeroValued (req : BackendRequest) : Prop :=
  WithReversible req = false /\ StopAtVirtualHead req = false /\
  LiveMarkerInterval req = 0 /\ NavigateFromBlockID req = EmptyString /\
  NavigateFromBlockNum req = 0.

(** One of the five fields is set. *)
Definition someNonZero (req : BackendRequest) : Prop :=
  WithReversible req = true \/ StopAtVirtualHead req = true \/
  LiveMarkerInterval req <> 0 \/ NavigateFromBlockID req <> EmptyString \/
  NavigateFromBlockNum req <> 0.

(** Matches that arrive on [Results], convert and are sent without error. *)
Definition delivered {Match SearchMatch ParsedQuery : Type}
    (b : ArchiveBackend Match SearchMatch ParsedQuery)
    (events : list (event Match)) (responses : list SearchMatch) : Prop :=
  Forall2 (fun ev response =>
             exists m, ev = ResultsRecv m None /\
                       archiveSearchMatchToProto b m = inl response)
          events responses.

Definition plainRequest : BackendRequest :=
  {| Query := "account:eosio.token"; LowBlockNum := 0; HighBlockNum := 100;
     Descending := false; WithReversible := false; StopAtVirtualHead := false;
     LiveMarkerInterval := 0; NavigateFromBlockID := EmptyString;
     NavigateFromBlockNum := 0 |}.

Definition reversibleRequest : BackendRequest :=
  {| Query := "account:eosio.token"; LowBlockNum := 0; HighBlockNum := 100;
     Descending := false; WithReversible := true; StopAtVirtualHead := false;
     LiveMarkerInterval := 0; NavigateFromBlockID := EmptyString;
     NavigateFromBlockNum := 0 |}.

(** A backend over matches that are plain block numbers. *)
Definition plainBackend : ArchiveBackend Z Z string :=
  {| NewParsedQuery := fun q => inl q;
     checkBoundaries := fun _ => None;
     archiveSearchMatchToProto := fun m => inl m |}.

End ArchiveBackend.

(** ** Fork resolver: the [StreamUndoMatches] gRPC handler *)

Module ForkResolver.

Definition MaxLookupBlocks : Z := 10000.

(** [pbsearch.BlockRef] *)
Record BlockRef : Type := { BlockID : string; BlockNum : Z }.

(** [bstream.Block], as far as the resolver looks at it. *)
Record Block : Type := { Id : string; Number : Z }.

Record ForkResolveRequest : Type := {
  Query : string;
  ForkedBlockRefs : list BlockRef
}.

(** Modelled from the spec: [search.NewCursor] is not part of the sources
    at hand; a cursor is the token of a block number, a block id and a
    transaction id prefix. *)
Record Cursor : Type := {
  cursorBlockNum : Z;
  cursorBlockID : string;
  cursorTrxPrefix : string
}.

Definition NewCursor (blockNum : Z) (blockID trxPrefix : string) : Cursor :=
  {| cursorBlockNum := blockNum; cursorBlockID := blockID;
     cursorTrxPrefix := trxPrefix |}.

(** [pbsearch.SearchMatch] *)
Record SearchMatch : Type := {
  TrxIdPrefix : string;
  Index : Z;
  MatchCursor : Cursor;
  IrrBlockNum : Z;
  BlockNum' : Z;
  Undo : bool;
  ChainSpecific : string
}.

(** The [search.SearchMatch] interface of a collected match.
    [FillProtoSpecific] receives the message by pointer and may write to
    it; it returns the message as it leaves it. *)
Class SearchMatchI (Match : Type) : Type := {
  TransactionIDPrefix : Match -> string;
  GetIndex : Match -> Z;
  FillProtoSpecific : Match -> SearchMatch -> Block -> SearchMatch * option error
}.

(** The resolver with its collaborators: the query parser, the
    pre-indexer, the single-index query (called with [sortDesc = false] and
    the full block range) and the file source over the blocks store, as
    the sequence of blocks it hands to its handler from a start block on. *)
Record ForkResolver (Match ParsedQuery SingleIndex : Type) : Type := {
  NewParsedQuery : string -> ParsedQuery + error;
  createSingleIndex : Block -> SingleIndex + error;
  RunSingleIndexQuery : ParsedQuery -> SingleIndex -> list Match + error;
  blocksFrom : Z -> list Block
}.
Arguments NewParsedQuery {Match ParsedQuery SingleIndex} _ _.
Arguments createSingleIndex {Match ParsedQuery SingleIndex} _ _.
Arguments RunSingleIndexQuery {Match ParsedQuery SingleIndex} _ _ _.
Arguments blocksFrom {Match ParsedQuery SingleIndex} _ _.

(** The gRPC stream and its context as the handler meets them: whether
    the request context is done while the blocks are fetched, whether it
    reports an error once the given matches are out, and what sending the
    next match returns. *)
Record ServerStream : Type := {
  ctxDone : option error;
  ctxErr : list SearchMatch -> bool;
  Send : list SearchMatch -> SearchMatch -> option error
}.

Definition boundaryStep (acc : Z * Z) (ref : BlockRef) : Z * Z :=
  let lowest := if BlockNum ref <? fst acc then BlockNum ref else fst acc in
  let highest := if BlockNum ref >? snd acc then BlockNum ref else snd acc in
  (lowest, highest).

Definition boundaries (refs : list BlockRef) : outcome (Z * Z) :=
  match refs with
  | [] => Panic index_out_of_range
  | r0 :: _ => Ret (fold_left boundaryStep refs (BlockNum r0, BlockNum r0))
  end.

Definition toMap (refs : list BlockRef) : gmap string bool :=
  fold_left (fun out ref => <[BlockID ref := true]> out) refs ∅.

(** [refsMap[id]]: a missing key reads as [false]. *)
Definition mapGet (refsMap : gmap string bool) (id : string) : bool :=
  default false (refsMap !! id).

(** Stable insertion of a block into a list already in descending order. *)
Fixpoint insertDescending (blk : Block) (blocks : list Block) : list Block :=
  match blocks with
  | [] => [blk]
  | b :: rest =>
      if Number b >? Number blk then b :: insertDescending blk rest
      else blk :: b :: rest
  end.

(** [sort.SliceStable] with [less(i, j) = blocks[i].Number > blocks[j].Number]. *)
Definition sortDescending (blocks : list Block) : list Block :=
  fold_right insertDescending [] blocks.

Definition notFoundError : error :=
  Status NotFound ("not found within " +:+ sprint_d MaxLookupBlocks +:+ " blocks").

Definition missingFilesError : error :=
  Errorf "cannot run forkresolver on missing block files".

(** The file source feeding the handler [h]: the blocks collected so far,
    whether the handler saw every requested id, and the error the source
    terminates with.  Running out of blocks is the not-found callback. *)
Fixpoint runSource (highest : Z) (blocks : list Block) (out : list Block)
    (refsMap : gmap string bool) : list Block * bool * error :=
  match blocks with
  | [] => (out, false, missingFilesError)
  | blk :: rest =>
      if Number blk >? U64.add highest MaxLookupBlocks
      then (out, false, notFoundError)
      else
        let '(out, refsMap) :=
          if mapGet refsMap (Id blk)
          then (out ++ [blk], delete (Id blk) refsMap)
          else (out, refsMap) in
        if bool_decide (size refsMap = 0%nat)
        then (out, true, ErrEndOfRange)
        else runSource highest rest out refsMap
  end.

Section Handler.
Context {Match ParsedQuery SingleIndex : Type} `{SearchMatchI Match}.
Variable f : ForkResolver Match ParsedQuery SingleIndex.
Variable stream : ServerStream.

Definition getBlocksDescending (refs : list BlockRef)
    : outcome (list Block * Z * option error) :=
  match boundaries refs with
  | Panic msg => Panic msg
  | Ret (lowest, highest) =>
      let libnum := U64.sub lowest 1 in
      match ctxDone stream with
      | Some err => Ret ([], 0, Some err)
      | None =>
          let '(out, complete, srcErr) :=
            runSource highest (blocksFrom f lowest) [] (toMap refs) in
          if negb complete then Ret ([], 0, Some srcErr)
          else Ret (sortDescending out, libnum, None)
      end
  end.

Definition newUndoMatch (blk : Block) (libnum : Z) (m : Match) : SearchMatch :=
  {| TrxIdPrefix := TransactionIDPrefix m;
     Index := GetIndex m;
     MatchCursor := NewCursor (Number blk) (Id blk) (TransactionIDPrefix m);
     IrrBlockNum := libnum;
     BlockNum' := Number blk;
     Undo := true;
     ChainSpecific := EmptyString |}.

(** The inner loop, over the matches of one block in the order they are
    visited ([i] from [len(matches) - 1] down to 0).  [inl sent]: the loop
    ran to its end; [inr (sent, r)]: the handler returned [r]. *)
Fixpoint emitMatches (blk : Block) (libnum : Z) (visited : list Match)
    (sent : list SearchMatch)
    : list SearchMatch + list SearchMatch * option error :=
  match visited with
  | [] => inl sent
  | m :: rest =>
      let '(pbMatch, err) := FillProtoSpecific m (newUndoMatch blk libnum m) blk in
      match err with
      | Some e => inr (sent, Some e)
      | None =>
          if ctxErr stream sent then inr (sent, None)
          else
            match Send stream sent pbMatch with
            | Some e => inr (sent, Some e)
            | None => emitMatches blk libnum rest (sent ++ [pbMatch])
            end
      end
  end.

(** The outer loop over the recovered blocks. *)
Fixpoint streamBlocks (bquery : ParsedQuery) (libnum : Z) (blocks : list Block)
    (sent : list SearchMatch) : list SearchMatch * option error :=
  match blocks with
  | [] => (sent, None)
  | blk :: rest =>
      match createSingleIndex f blk with
      | inr err => (sent, Some err)
      | inl idx =>
          match RunSingleIndexQuery f bquery idx with
          | inr err =>
              if isContextCanceled err
              then (sent, Some (Status Canceled "context canceled"))
              else (sent, Some (Errorf "failed running single-index query"))
          | inl matches =>
              match emitMatches blk libnum (rev matches) sent with
              | inr r => r
              | inl sent' => streamBlocks bquery libnum rest sent'
              end
          end
      end
  end.

(** The matches sent on the stream and the error the handler returns.  The
    error of [getBlocksDescending] is assigned and not looked at. *)
Definition StreamUndoMatches (req : ForkResolveRequest)
    : outcome (list SearchMatch * option error) :=
  if (List.length (ForkedBlockRefs req) =? 0)%nat
  then Ret ([], Some (Status InvalidArgument "invalid argument: no refs requested"))
  else
    match NewParsedQuery f (Query req) with
    | inr err =>
        if isContextCanceled err
        then Ret ([], Some (Status Canceled "context canceled"))
        else Ret ([], Some err)
    | inl bquery =>
        match getBlocksDescending (ForkedBlockRefs req) with
        | Panic msg => Panic msg
        | Ret (blocks, libnum, _) => Ret (streamBlocks bquery libnum blocks [])
        end
    end.

End Handler.

(** The fields of a sent match that the resolver sets itself. *)
Definition undoFields (pb : SearchMatch) : Z * Cursor * Z * bool :=
  (Index pb, MatchCursor pb, BlockNum' pb, Undo pb).

(** Descending by block number and, inside one block, by transaction
    index. *)
Definition undoOrder (a b : SearchMatch) : Prop :=
  BlockNum' a >= BlockNum' b /\
  (cursorBlockID (MatchCursor a) = cursorBlockID (MatchCursor b) ->
   Index a >= Index b).

(** A requested id: the id of one of the references. *)
Definition requested (refs : list BlockRef) (id : string) : Prop :=
  exists ref, In ref refs /\ BlockID ref = id.

Definition descendingNumber (a b : Block) : Prop := Number a >= Number b.

(** A sent message that agrees with the one built for match [m] of [blk]. *)
Definition fromBlock {Match : Type} `{SearchMatchI Match}
    (blk : Block) (libnum : Z) (pb : SearchMatch) (m : Match) : Prop :=
  undoFields pb = undoFields (newUndoMatch blk libnum m).

(** A sent match is an undo of one of the requested blocks. *)
Definition undoOf (refs : list BlockRef) (pb : SearchMatch) : Prop :=
  Undo pb = true /\ requested refs (cursorBlockID (MatchCursor pb)).

(** The matches on the stream when the inner loop is left. *)
Definition emitted (r : list SearchMatch + list SearchMatch * option error)
    : list SearchMatch :=
  match r with
  | inl sent => sent
  | inr (sent, _) => sent
  end.

Definition ofBlock (id : string) (pb : SearchMatch) : bool :=
  String.eqb (cursorBlockID (MatchCursor pb)) id.

(** *** Sample resolvers *)

Record plainMatch : Type := { matchPrefix : string; matchIndex : Z }.

#[global] Instance plainMatchI : SearchMatchI plainMatch := {|
  TransactionIDPrefix := matchPrefix;
  GetIndex := matchIndex;
  FillProtoSpecific := fun _ pb _ => (pb, None)
|}.

(** [n] consecutive blocks of one chain, from block [start] on. *)
Fixpoint chainFrom (start : Z) (n : nat) : list Block :=
  match n with
  | O => []
  | S n' => {| Id := "blk" +:+ sprint_d start; Number := start |}
            :: chainFrom (start + 1) n'
  end.

Definition twoMatches : list plainMatch :=
  [{| matchPrefix := "aa"; matchIndex := 0 |};
   {| matchPrefix := "bb"; matchIndex := 1 |}].

(** A store that holds the canonical chain only, far enough to exhaust
    the lookup window. *)
Definition canonicalResolver : ForkResolver plainMatch string Block := {|
  NewParsedQuery := fun q => inl q;
  createSingleIndex := fun blk => inl blk;
  RunSingleIndexQuery := fun _ _ => inl twoMatches;
  blocksFrom := fun lowest => chainFrom lowest (Z.to_nat 10002)
|}.

(** A store that also holds two forked blocks. *)
Definition forkedResolver : ForkResolver plainMatch string Block := {|
  NewParsedQuery := fun q => inl q;
  createSingleIndex := fun blk => inl blk;
  RunSingleIndexQuery := fun _ _ => inl twoMatches;
  blocksFrom := fun _ =>
    [{| Id := "blk500"; Number := 500 |}; {| Id := "dead"; Number := 500 |};
     {| Id := "blk501"; Number := 501 |}; {| Id := "beef"; Number := 501 |};
     {| Id := "blk502"; Number := 502 |}]
|}.

Definition quietStream : ServerStream :=
  {| ctxDone := None; ctxErr := fun _ => false; Send := fun _ _ => None |}.

Definition deadRequest : ForkResolveRequest :=
  {| Query := "account:eosio.token";
     ForkedBlockRefs := [{| BlockID := "dead"; BlockNum := 500 |}] |}.

Definition forkRequest : ForkResolveRequest :=
  {| Query := "account:eosio.token";
     ForkedBlockRefs := [{| BlockID := "dead"; BlockNum := 500 |};
                         {| BlockID := "beef"; BlockNum := 501 |}] |}.

Definition emptyRequest : ForkResolveRequest :=
  {| Query := "account:eosio.token"; ForkedBlockRefs := [] |}.

End ForkResolver.

(** ** Further parts of the sources *)

(** *** Shard model: chains without a gap *)

Module ShardChains.

(** Every candidate is at most one shard size above the one before it. *)
Fixpoint noGap (shardSize previous : Z) (candidates : list Z) : bool :=
  match candidates with
  | [] => true
  | c :: cs => negb (c >? U64.add previous shardSize) && noGap shardSize c cs
  end.

Definition all_digits (s : string) : Prop :=
  Forall (fun c => ShardModel.is_digit c = true) (list_ascii_of_string s).

End ShardChains.

(** *** Indexer: where the batch file source starts *)

Module IndexerPipeline.

(** The [getBlocksFrom] of [BuildBatchPipeline]: the start block moved
    back by the look-back, when it is larger than the look-back. *)
Definition getBlocksFrom (startBlockNum numberOfBlocksToFetchBeforeStarting : Z) : Z :=
  if startBlockNum >? numberOfBlocksToFetchBeforeStarting
  then U64.sub startBlockNum numberOfBlocksToFetchBeforeStarting
  else startBlockNum.

End IndexerPipeline.

(** *** Archive application: mesh peers *)

Module ArchivePeers.

(** [dmesh.SearchPeer], as far as the archive application reads it. *)
Record SearchPeer : Type := {
  TailBlock : Z;
  IrrBlock : Z;
  HeadBlock : Z;
  Ready : bool
}.

Definition getSearchHighestIrr (peers : list SearchPeer) : Z :=
  fold_left (fun irrBlock peer =>
               if IrrBlock peer >? irrBlock then IrrBlock peer else irrBlock)
            peers 0.

End ArchivePeers.

(** *** Archive backend: events that end the stream *)

Module ArchiveEvents.

(** An event on which the loop of [StreamMatches] is always left. *)
Definition isTerminal {Match : Type} (ev : ArchiveBackend.event Match) : bool :=
  match ev with
  | ArchiveBackend.ErrorsRecv _ _ => true
  | ArchiveBackend.ResultsClosed _ => true
  | ArchiveBackend.ResultsRecv _ _ => false
  end.

(** Where an error returned by [StreamMatches] can come from. *)
Definition errorOrigin {Match SearchMatch ParsedQuery : Type}
    (b : ArchiveBackend.ArchiveBackend Match SearchMatch ParsedQuery)
    (req : ArchiveBackend.BackendRequest)
    (events : list (ArchiveBackend.event Match)) (err : error) : Prop :=
  ArchiveBackend.rejectUnsupported req = Some err \/
  ArchiveBackend.NewParsedQuery b (ArchiveBackend.Query req) = inr err \/
  ArchiveBackend.checkBoundaries b req = Some err \/
  In (ArchiveBackend.ErrorsRecv (Some err) false) events \/
  (exists m, In (ArchiveBackend.ResultsRecv m (Some err)) events) \/
  (exists m sendErr e,
     In (ArchiveBackend.ResultsRecv m sendErr) events /\
     ArchiveBackend.archiveSearchMatchToProto b m = inr e /\
     err = Errorf ("unable to obtain search match proto: " +:+ errorMessage e)).

End ArchiveEvents.

(** *** Archive backend: the head-info stream *)

Module ArchiveHeadInfo.

(** [pbhead.HeadInfoResponse] of the archive: only [LibNum] is set. *)
Record HeadInfoResponse : Type := { LibNum : Z }.

(** [GetHeadInfo]: the last read-only indexed block of the pool. *)
Definition GetHeadInfo (lastReadOnlyIndexedBlock : Z) : HeadInfoResponse :=
  {| LibNum := lastReadOnlyIndexedBlock |}.

(** [StreamHeadInfo]: one turn of the loop per element, which gives the
    pool's last read-only indexed block at that turn and what [stream.Send]
    answers.  The result is the responses that went out and the error
    returned; [None] while the loop is still turning. *)
Fixpoint StreamHeadInfo (turns : list (Z * option error))
    : option (list HeadInfoResponse * error) :=
  match turns with
  | [] => None
  | (lib, sendErr) :: rest =>
      match sendErr with
      | Some err => Some ([], err)
      | None =>
          match StreamHeadInfo rest with
          | Some (sent, err) => Some (GetHeadInfo lib :: sent, err)
          | None => None
          end
      end
  end.

End ArchiveHeadInfo.

(** *** Live application: choice of the start block *)

Module LiveApp.

(** [bstream.BlockRef] *)
Record BlockRef : Type := { ID : string; Num : Z }.

Definition NewBlockRef (id : string) (num : Z) : BlockRef := {| ID := id; Num := num |}.

Definition LiveAppStartAborted : error :=
  Errorf "getting start block aborted by live application".

(** [meshLIB] is what [live.GetMeshLIB(dmesh.Peers, 1)] returns. *)
Definition startBlockFromDmesh (meshLIB : option BlockRef) : option BlockRef :=
  match meshLIB with
  | Some startBlock =>
      if Num startBlock <? 2 then Some (NewBlockRef EmptyString 2)
      else Some startBlock
  | None => None
  end.

Definition tweakStartBlock (blk : BlockRef) : BlockRef :=
  if Num blk <? 2 then NewBlockRef EmptyString 2 else blk.

(** What one turn of the loop of [getStartBlock] finds: whether the
    application is terminating, the irreversible block of the archive in
    the mesh, and the irreversible blocks the head-info service reports for
    the stream and for the network ([None]: the call failed). *)
Record turn : Type := {
  isTerminating : bool;
  meshLIB : option BlockRef;
  streamLIB : option BlockRef;
  networkLIB : option BlockRef
}.

(** [from] is at or ahead of the archive, by less than the tolerance. *)
Definition closeAhead (tolerance : Z) (from fromArchive : BlockRef) : bool :=
  (Num from >=? Num fromArchive)
  && (U64.sub (Num from) (Num fromArchive) <? tolerance).

(** [getStartBlock] over the turns of its loop; [None] while it waits. *)
Fixpoint getStartBlock (StartBlockDriftTolerance : Z) (turns : list turn)
    : option (option BlockRef * option error) :=
  match turns with
  | [] => None
  | t :: rest =>
      if isTerminating t then Some (None, Some LiveAppStartAborted)
      else
        match startBlockFromDmesh (meshLIB t) with
        | None => getStartBlock StartBlockDriftTolerance rest
        | Some fromArchive =>
            match streamLIB t with
            | None => getStartBlock StartBlockDriftTolerance rest
            | Some fromStream =>
                match networkLIB t with
                | None =>
                    if closeAhead StartBlockDriftTolerance fromStream fromArchive
                    then Some (Some fromArchive, None)
                    else getStartBlock StartBlockDriftTolerance rest
                | Some fromNetwork =>
                    if closeAhead StartBlockDriftTolerance fromNetwork fromArchive
                    then Some (Some fromArchive, None)
                    else getStartBlock StartBlockDriftTolerance rest
                end
            end
        end
  end.

(** The irreversible block the archive is compared with: that of the
    network, or that of the stream when the network's is not known. *)
Definition reference (t : turn) : option BlockRef :=
  match streamLIB t with
  | None => None
  | Some fromStream =>
      match networkLIB t with
      | Some fromNetwork => Some fromNetwork
      | None => Some fromStream
      end
  end.

Definition numberInRange (ref : option BlockRef) : Prop :=
  match ref with
  | Some r => U64.in_range (Num r)
  | None => True
  end.

(** The block numbers a turn reports are [uint64] values. *)
Definition turnInRange (t : turn) : Prop :=
  numberInRange (meshLIB t) /\ numberInRange (streamLIB t) /\
  numberInRange (networkLIB t).

Definition sampleTurns : list turn :=
  [{| isTerminating := false; meshLIB := None; streamLIB := None;
      networkLIB := None |};
   {| isTerminating := false;
      meshLIB := Some (NewBlockRef "00000bb8a" 3000);
      streamLIB := Some (NewBlockRef "00000c1ca" 3100);
      networkLIB := Some (NewBlockRef "00000fa0a" 4000) |};
   {| isTerminating := false;
      meshLIB := Some (NewBlockRef "00000f3ca" 3900);
      streamLIB := Some (NewBlockRef "00000f6ea" 3950);
      networkLIB := Some (NewBlockRef "00000fa5a" 4005) |}]%string.

End LiveApp.

(** *** Indexer application: target start block *)

Module IndexerApp.

Record Config : Type := {
  ShardSize : Z;
  StartBlock : Z;   (* int64 *)
  StopBlock : Z;
  EnableBatchMode : bool
}.

(** What asking the block stream for its irreversible block gives. *)
Inductive headInfo : Type :=
| ClientFailed (err : error)   (* dgrpc.NewInternalClient failed *)
| LibFailed (err : error)      (* search.GetLibInfo failed *)
| Lib (num : Z).

Definition nextLiveStartBlock (config : Config) (info : headInfo) : Z * option error :=
  if 0 <=? StartBlock config then (U64.of_int64 (StartBlock config), None)
  else
    match info with
    | ClientFailed err =>
        (0, Some (Errorf ("getting headinfo client: " +:+ errorMessage err)))
    | LibFailed err =>
        (0, Some (Errorf ("fetching LIB with headinfo: " +:+ errorMessage err)))
    | Lib num =>
        (U64.of_int64 (U64.wrap_i64 (U64.to_int64 num + StartBlock config)), None)
    end.

(** [listing] is the remote listing [NextBaseBlockAfter] reads, [Resolve]
    the [StartBlockResolver].  The result is the target start block, the
    start block of the file source, the previous irreversible id and the
    error. *)
Definition resolveStartBlock (config : Config) (listing : option (list string))
    (info : headInfo) (Resolve : Z -> Z * string * option error)
    : outcome (Z * Z * string * option error) :=
  let finish (targetStartBlock : Z) :=
    let '(filesourceStartBlock, previousIrreversibleID, err) :=
      Resolve targetStartBlock in
    Ret (targetStartBlock, filesourceStartBlock, previousIrreversibleID, err) in
  if EnableBatchMode config then
    if StartBlock config <? 0
    then Ret (0, 0, EmptyString,
              Some (Errorf "invalid negative start block in batch mode"))
    else finish (U64.of_int64 (StartBlock config))
  else
    let '(targetStartBlock, err) :=
      if 0 <=? StartBlock config then (U64.of_int64 (StartBlock config), None)
      else nextLiveStartBlock config info in
    match err with
    | Some e => Ret (targetStartBlock, 0, EmptyString, Some e)
    | None =>
        match ShardModel.NextBaseBlockAfter (ShardSize config) listing
                targetStartBlock with
        | Panic msg => Panic msg
        | Ret next => finish next
        end
    end.

Definition sameBlockResolver (target : Z) : Z * string * option error :=
  (target, EmptyString, None).

Definition liveConfig : Config :=
  {| ShardSize := 5000; StartBlock := 1234; StopBlock := 0;
     EnableBatchMode := false |}.

Definition batchConfig : Config :=
  {| ShardSize := 5000; StartBlock := 1234; StopBlock := 20000;
     EnableBatchMode := true |}.

End IndexerApp.

(** *** Fork resolver: what the stream has seen *)

Module ForkResolverStream.

(** Every match on [sent] went out while the context reported no error,
    and its [Send] returned none. *)
Definition cleanHistory (stream : ForkResolver.ServerStream)
    (sent : list ForkResolver.SearchMatch) : Prop :=
  forall before pb after,
    sent = before ++ pb :: after ->
    ForkResolver.ctxErr stream before = false /\
    ForkResolver.Send stream before pb = None.

Definition numbered (n : Z) (blk : ForkResolver.Block) : bool :=
  ForkResolver.Number blk =? n.

(** A sent match is the undo of a match of block [blk]: it has [Undo] set,
    the number of that block, and a cursor with the id and the number of
    that block. *)
Definition undoOfBlock (blk : ForkResolver.Block)
    (pb : ForkResolver.SearchMatch) : Prop :=
  ForkResolver.Undo pb = true /\
  ForkResolver.BlockNum' pb = ForkResolver.Number blk /\
  ForkResolver.cursorBlockID (ForkResolver.MatchCursor pb) = ForkResolver.Id blk /\
  ForkResolver.cursorBlockNum (ForkResolver.MatchCursor pb)
    = ForkResolver.Number blk.

End ForkResolverStream.

(** * Properties *)

(** ** Machine integers *)

Lemma wrap_small z : U64.in_range z -> U64.wrap z = z.
Proof. unfold U64.in_range, U64.wrap. intros Hz. now apply Z.mod_small. Qed.

Lemma wrap_in_range z : U64.in_range (U64.wrap z).
Proof.
  unfold U64.in_range, U64.wrap, U64.modulus. apply Z.mod_pos_bound. lia.
Qed.

Lemma to_int64_small z : 0 <= z < U64.half -> U64.to_int64 z = z.
Proof.
  unfold U64.to_int64. intros Hz.
  destruct (Z.ltb_spec z U64.half); [reflexivity | lia].
Qed.

Lemma wrap_i64_small z : 0 <= z < U64.half -> U64.wrap_i64 z = z.
Proof.
  intros Hz. unfold U64.wrap_i64.
  rewrite wrap_small; [now apply to_int64_small |].
  unfold U64.in_range, U64.half, U64.modulus in *. lia.
Qed.

(** ** Shard model *)

Section ShardRange.
Import ShardModel.

Lemma Index_keeps_range s doc :
  StartBlock (Index s doc) = StartBlock s /\ EndBlock (Index s doc) = EndBlock s.
Proof. split; reflexivity. Qed.

Lemma fold_Index_keeps_range docs s :
  StartBlock (fold_left Index docs s) = StartBlock s /\
  EndBlock (fold_left Index docs s) = EndBlock s.
Proof.
  revert s. induction docs as [| d docs IH]; intros s; simpl.
  - split; reflexivity.
  - destruct (IH (Index s d)) as [Hs He]. rewrite Hs, He. apply Index_keeps_range.
Qed.

Lemma newShardIndex_fields base size :
  U64.in_range base -> U64.in_range size -> 0 < size ->
  base + size - 1 <= U64.MaxUint64 ->
  newShardIndex base size =
    {| StartBlock := base; EndBlock := base + size - 1; documents := [] |}.
Proof.
  intros Hb Hs Hpos Hfit. unfold newShardIndex.
  assert (Hz : (size =? 0) = false) by (apply Z.eqb_neq; lia).
  rewrite Hz, andb_false_r. f_equal.
  unfold U64.sub, U64.add, U64.wrap.
  rewrite Zminus_mod_idemp_l.
  apply Z.mod_small.
  unfold U64.MaxUint64, U64.in_range, U64.modulus in *. lia.
Qed.

(** C9, as amended: when the last block [base + shardSize - 1] still fits
    in a [uint64], a new shard index over [shardSize > 0] blocks starts at
    [base], ends at [base + shardSize - 1], contains exactly the block
    numbers of that closed range, holds no document, and keeps the same
    range whatever documents are indexed into it afterwards. *)
Theorem newShardIndex_potential_range base shardSize :
  U64.in_range base -> U64.in_range shardSize -> 0 < shardSize ->
  base + shardSize - 1 <= U64.MaxUint64 ->
  let s := newShardIndex base shardSize in
  StartBlock s = base /\
  EndBlock s = base + shardSize - 1 /\
  (forall n, containsBlockNum s n = true <-> base <= n <= base + shardSize - 1) /\
  documents s = [] /\
  (forall docs,
     StartBlock (fold_left Index docs s) = base /\
     EndBlock (fold_left Index docs s) = base + shardSize - 1).
Proof.
  intros Hb Hs Hpos Hfit s. subst s.
  rewrite newShardIndex_fields by assumption. simpl.
  repeat split; try reflexivity.
  - unfold containsBlockNum in H. simpl in H.
    apply andb_true_iff in H as [H1 _]. now apply Z.leb_le.
  - unfold containsBlockNum in H. simpl in H.
    apply andb_true_iff in H as [_ H2]. now apply Z.leb_le.
  - intros [H1 H2]. unfold containsBlockNum. simpl.
    apply andb_true_iff. split; now apply Z.leb_le.
  - now rewrite (proj1 (fold_Index_keeps_range docs _)).
  - now rewrite (proj2 (fold_Index_keeps_range docs _)).
Qed.

Lemma newShardIndex_potential_range_witness :
  let s := newShardIndex 5000 5000 in
  StartBlock s = 5000 /\
  EndBlock s = 5000 + 5000 - 1 /\
  (forall n, containsBlockNum s n = true <-> 5000 <= n <= 5000 + 5000 - 1) /\
  documents s = [] /\
  (forall docs,
     StartBlock (fold_left Index docs s) = 5000 /\
     EndBlock (fold_left Index docs s) = 5000 + 5000 - 1).
Proof.
  apply (newShardIndex_potential_range 5000 5000);
    unfold U64.in_range, U64.MaxUint64, U64.modulus; simpl; lia.
Defined.

(** C9 as stated fails where the range runs past the largest [uint64]:
    the shard based at [2^64 - 1] with two blocks ends at block 0 and does
    not contain its own base. *)
Lemma newShardIndex_wraps_counterexample :
  let base := U64.MaxUint64 in
  let s := newShardIndex base 2 in
  U64.in_range base /\ 0 < 2 /\
  EndBlock s = 0 /\ EndBlock s <> base + 2 - 1 /\
  containsBlockNum s base = false /\ base <= base <= base + 2 - 1.
Proof.
  cbv zeta. unfold U64.in_range, U64.MaxUint64, U64.modulus.
  repeat split; try (vm_compute; congruence); lia.
Qed.

End ShardRange.

(** ** Next base after a start block *)

Section NextBase.
Import ShardModel.

Lemma candidatesAfter_cons base file rest :
  candidatesAfter base (file :: rest) =
    match FindStringSubmatch file with
    | Some m =>
        if startBlockFromFileName m <=? base
        then candidatesAfter base rest
        else startBlockFromFileName m :: candidatesAfter base rest
    | None => candidatesAfter base rest
    end.
Proof.
  unfold candidatesAfter, basesOf. simpl.
  destruct (FindStringSubmatch file) as [m |]; simpl; [| reflexivity].
  now destruct (startBlockFromFileName m <=? base).
Qed.

(** The loop is the chain walk over the candidates above the start. *)
Lemma scanRemote_followChain shardSize base remote :
  forall next,
    scanRemote shardSize base remote next =
    followChain shardSize next (candidatesAfter base remote).
Proof.
  induction remote as [| file rest IH]; intros next.
  - reflexivity.
  - rewrite candidatesAfter_cons. simpl.
    destruct (FindStringSubmatch file) as [m |]; [| apply IH].
    destruct (startBlockFromFileName m <=? base); [apply IH |].
    simpl.
    destruct (startBlockFromFileName m >? U64.add next shardSize);
      [reflexivity | apply IH].
Qed.

(** Every base the chain walk can return is the start or a candidate. *)
Lemma followChain_In shardSize cands :
  forall prev, followChain shardSize prev cands = prev \/
               In (followChain shardSize prev cands) cands.
Proof.
  induction cands as [| c cs IH]; intros prev; simpl.
  - now left.
  - destruct (c >? U64.add prev shardSize); [now left |].
    destruct (IH c) as [-> | Hin]; right; [now left | now right].
Qed.

(** C3, as amended: [NextBaseBlockAfter] reads a base off every listed
    name that contains ten digits followed by [.avro] (the pattern is not
    anchored), keeps those above the start block, follows them while each
    is at most one shard size above the previous one, stops at the first
    gap and aligns the base it stopped on; with no candidate it aligns the
    start block.  With [0000000000.avro], [0000005000.avro] and
    [0000015000.avro] and a shard size of 5000 it returns 5000 from 0 and
    5000 again from 5000: the base before the gap, never 15000. *)
Theorem NextBaseBlockAfter_follows_chain :
  (forall shardSize remote base,
     NextBaseBlockAfter shardSize (Some remote) base =
       alignStartBlock shardSize
         (followChain shardSize base (candidatesAfter base remote))) /\
  (forall shardSize remote base,
     candidatesAfter base remote = [] ->
     NextBaseBlockAfter shardSize (Some remote) base =
       alignStartBlock shardSize base) /\
  NextBaseBlockAfter 5000 (Some gapListing) 0 = Ret 5000 /\
  NextBaseBlockAfter 5000 (Some gapListing) 5000 = Ret 5000 /\
  (forall base, U64.in_range base -> base < 10000 ->
                exists b, NextBaseBlockAfter 5000 (Some gapListing) base = Ret b /\
                          b <= 5000).
Proof.
  split; [| split; [| split; [| split]]].
  - intros shardSize remote base. unfold NextBaseBlockAfter.
    now rewrite scanRemote_followChain.
  - intros shardSize remote base Hnone. unfold NextBaseBlockAfter.
    now rewrite scanRemote_followChain, Hnone.
  - reflexivity.
  - reflexivity.
  - intros base Hrange Hlt.
    unfold NextBaseBlockAfter. rewrite scanRemote_followChain.
    unfold candidatesAfter.
    change (basesOf gapListing) with [0; 5000; 15000].
    unfold alignStartBlock. change (5000 =? 0) with false. cbv iota.
    eexists. split; [reflexivity |].
    unfold U64.in_range, U64.modulus in Hrange.
    assert (Hadd : forall p, 0 <= p < 10000 -> U64.add p 5000 = p + 5000).
    { intros p Hp. unfold U64.add. apply wrap_small.
      unfold U64.in_range, U64.modulus. lia. }
    assert (Halign : forall p, 0 <= p < 10000 ->
                               U64.sub p (p mod 5000) <= 5000).
    { intros p Hp. unfold U64.sub.
      pose proof (Z.mod_pos_bound p 5000 ltac:(lia)) as Hm.
      pose proof (Z.div_mod p 5000 ltac:(lia)) as Hd.
      rewrite wrap_small by (unfold U64.in_range, U64.modulus; lia).
      assert (p / 5000 < 2) by (apply Z.div_lt_upper_bound; lia).
      lia. }
    cbn [List.filter].
    destruct (Z.leb_spec 0 base) as [_ |]; [| lia].
    destruct (Z.leb_spec 15000 base) as [| _]; [lia |].
    destruct (Z.leb_spec 5000 base) as [Hge | Hsmall]; cbn [negb followChain].
    + rewrite Hadd by lia.
      destruct (Z.gtb_spec 15000 (base + 5000)); [| lia].
      apply Halign. lia.
    + rewrite Hadd by lia.
      destruct (Z.gtb_spec 5000 (base + 5000)); [lia |].
      rewrite (Hadd 5000) by lia.
      destruct (Z.gtb_spec 15000 (5000 + 5000)); [| lia].
      apply Halign. lia.
Qed.

Lemma NextBaseBlockAfter_follows_chain_witness :
  NextBaseBlockAfter 5000 (Some ["notes.txt"%string]) 7 = alignStartBlock 5000 7 /\
  exists b, NextBaseBlockAfter 5000 (Some gapListing) 9999 = Ret b /\ b <= 5000.
Proof.
  destruct NextBaseBlockAfter_follows_chain as (_ & Hnone & _ & _ & Hgap).
  split.
  - apply Hnone. reflexivity.
  - apply Hgap; unfold U64.in_range, U64.modulus; simpl; lia.
Defined.

(** C3 as stated fails twice.  From 5000 the scan over the three files
    answers 5000, not 10000: it returns the last base before the gap, not
    the gap.  And a listing whose names carry the store prefix has no name
    of exactly ten digits and [.avro], yet the scan reads their bases. *)
Lemma NextBaseBlockAfter_counterexample :
  NextBaseBlockAfter 5000 (Some gapListing)  0 = Ret 5000 /\
  NextBaseBlockAfter 5000 (Some gapListing) 5000 <> Ret 10000 /\
  Forall (fun name => exact_name name = false) prefixedListing /\
  nextBaseAfter_spec 5000 prefixedListing 0 = Ret 0 /\
  NextBaseBlockAfter 5000 (Some prefixedListing) 0 = Ret 5000.
Proof.
  repeat split; try (vm_compute; congruence).
  repeat constructor.
Qed.

End NextBase.

(** ** Indexer bootstrap *)

Section Bootstrap.
Import Indexer.

Lemma prefix_append (s t : string) : String.prefix s (s +:+ t) = true.
Proof.
  induction s as [| c s IH]; simpl.
  - now destruct t.
  - destruct (ascii_dec c c) as [_ | Hne]; [exact IH | now elim Hne].
Qed.

Lemma boundaryError_prefix n :
  String.prefix boundaryPrefix (errorMessage (boundaryError n)) = true.
Proof.
  unfold boundaryError. cbn [errorMessage].
  apply prefix_append.
Qed.

(** On a zero shard size the remainder panics before anything is returned. *)
Lemma Bootstrap_zero_shard_panics pipelineBootstrap i n :
  shardSize i = 0 -> Bootstrap pipelineBootstrap i n = Panic divide_by_zero.
Proof. intros Hz. unfold Bootstrap. simpl. now rewrite Hz. Qed.

(** C2: with a non-zero shard size and a pipeline that does not itself
    report the boundary message, [Bootstrap] fails with an error whose
    message begins "indexer only starts RIGHT BEFORE the index boundaries"
    exactly when the start block is neither a multiple of the shard size
    nor 1; otherwise it returns what the pipeline's bootstrap returns. *)
Theorem Bootstrap_fails_iff_off_boundary
    (pipelineBootstrap : Z -> option error) (i : Indexer) (startBlockNum : Z) :
  shardSize i <> 0 ->
  (forall e, pipelineBootstrap startBlockNum = Some e ->
             String.prefix boundaryPrefix (errorMessage e) = false) ->
  (failsOnBoundary (Bootstrap pipelineBootstrap i startBlockNum) <->
     startBlockNum mod shardSize i <> 0 /\ startBlockNum <> 1) /\
  (~ (startBlockNum mod shardSize i <> 0 /\ startBlockNum <> 1) ->
   exists i', Bootstrap pipelineBootstrap i startBlockNum =
                Ret (i', pipelineBootstrap startBlockNum) /\
              StartBlockNum i' = startBlockNum).
Proof.
  intros Hsize Hpipe. unfold Bootstrap. cbn [shardSize StartBlockNum].
  destruct (Z.eqb_spec (shardSize i) 0) as [Hz | _]; [contradiction |].
  destruct (Z.eqb_spec (startBlockNum mod shardSize i) 0) as [Hal | Hmis];
    destruct (Z.eqb_spec startBlockNum 1) as [Hone | Hnot1]; cbn [negb andb].
  4: { split.
       - split; [intros _; now split |].
         intros _. eexists _, _. split; [reflexivity | apply boundaryError_prefix].
       - intros Hno. exfalso. apply Hno. now split. }
  all: split;
    [ split;
      [ intros (i' & e & Heq & Hpre); injection Heq as _ Hsome;
        apply Hpipe in Hsome; congruence
      | intros [H1 H2]; contradiction ]
    | intros _; eexists; split; reflexivity ].
Qed.

Lemma Bootstrap_fails_iff_off_boundary_witness :
  let i := {| StartBlockNum := 0; StopBlockNum := 0; shardSize := 5000 |} in
  (failsOnBoundary (Bootstrap (fun _ => None) i 5001) <->
     5001 mod shardSize i <> 0 /\ 5001 <> 1) /\
  (~ (5001 mod shardSize i <> 0 /\ 5001 <> 1) ->
   exists i', Bootstrap (fun _ => None) i 5001 = Ret (i', None) /\
              StartBlockNum i' = 5001).
Proof.
  apply (Bootstrap_fails_iff_off_boundary (fun _ => None)
           {| StartBlockNum := 0; StopBlockNum := 0; shardSize := 5000 |} 5001).
  - simpl. lia.
  - intros e He. discriminate He.
Defined.

(** The literal scenario: shard size 5000, start block 5001. *)
Example Bootstrap_5001_rejected :
  Bootstrap (fun _ => None)
    {| StartBlockNum := 0; StopBlockNum := 0; shardSize := 5000 |} 5001 =
  Ret ({| StartBlockNum := 5001; StopBlockNum := 0; shardSize := 5000 |},
       Some (boundaryError 5001)).
Proof. reflexivity. Qed.

End Bootstrap.

(** ** Start-block resolution of the archive *)

Section ResolveStartBlock.
Import ArchiveApp.

Variables startBlock shardSize irrBlockNum : Z.
Hypothesis size_pos : 0 < shardSize < U64.half.
Hypothesis irr_small : 0 <= irrBlockNum < U64.half.
Hypothesis start_i64 : U64.in_range_i64 startBlock.

Lemma size_as_int64 : U64.to_int64 shardSize = shardSize.
Proof. apply to_int64_small. lia. Qed.

Lemma size_eqb_zero : (shardSize =? 0) = false.
Proof. apply Z.eqb_neq. lia. Qed.

(** An absolute, aligned start block is returned as it is. *)
Lemma resolveStartBlock_aligned :
  0 <= startBlock -> startBlock mod shardSize = 0 ->
  resolveStartBlock startBlock shardSize irrBlockNum = Ret (startBlock, None).
Proof.
  intros Hnn Hal. unfold resolveStartBlock.
  rewrite size_as_int64, size_eqb_zero.
  destruct (Z.leb_spec 0 startBlock); [| lia].
  rewrite Z.rem_mod_nonneg, Hal by lia. simpl.
  unfold U64.of_int64. rewrite wrap_small; [reflexivity |].
  unfold U64.in_range_i64, U64.in_range, U64.half, U64.modulus in *. lia.
Qed.

(** An absolute, misaligned start block is refused. *)
Lemma resolveStartBlock_misaligned :
  0 <= startBlock -> startBlock mod shardSize <> 0 ->
  resolveStartBlock startBlock shardSize irrBlockNum =
    Ret (0, Some (misalignedError startBlock shardSize)).
Proof.
  intros Hnn Hmis. unfold resolveStartBlock.
  rewrite size_as_int64, size_eqb_zero.
  destruct (Z.leb_spec 0 startBlock); [| lia].
  rewrite Z.rem_mod_nonneg by lia.
  destruct (Z.eqb_spec (startBlock mod shardSize) 0); [contradiction | reflexivity].
Qed.

Lemma relative_sum_i64 :
  startBlock < 0 ->
  U64.wrap_i64 (U64.to_int64 irrBlockNum + startBlock) = irrBlockNum + startBlock.
Proof.
  intros Hneg. rewrite to_int64_small by lia.
  unfold U64.wrap_i64, U64.wrap, U64.to_int64.
  unfold U64.in_range_i64, U64.half, U64.modulus in *.
  destruct (Z_lt_le_dec (irrBlockNum + startBlock) 0) as [Hlt | Hge].
  - replace ((irrBlockNum + startBlock) mod 2 ^ 64)
      with (irrBlockNum + startBlock + 2 ^ 64).
    + destruct (Z.ltb_spec (irrBlockNum + startBlock + 2 ^ 64) (2 ^ 63)); lia.
    + apply Z.mod_unique with (q := -1); lia.
  - rewrite Z.mod_small by lia.
    destruct (Z.ltb_spec (irrBlockNum + startBlock) (2 ^ 63)); lia.
Qed.

(** A relative start block that lands on or above block 0 is aligned down. *)
Lemma resolveStartBlock_relative :
  startBlock < 0 -> 0 <= irrBlockNum + startBlock ->
  let x := irrBlockNum + startBlock in
  resolveStartBlock startBlock shardSize irrBlockNum =
    Ret (x - x mod shardSize, None).
Proof.
  intros Hneg Hnn x. unfold resolveStartBlock.
  rewrite size_as_int64, size_eqb_zero, relative_sum_i64 by assumption.
  destruct (Z.leb_spec 0 startBlock); [lia |].
  fold x. rewrite Z.rem_mod_nonneg by lia.
  pose proof (Z.mod_pos_bound x shardSize ltac:(lia)) as Hm.
  pose proof (Z.mod_le x shardSize ltac:(lia) ltac:(lia)) as Hle.
  assert (Hx : x < U64.half) by (unfold x; lia).
  rewrite wrap_i64_small by lia.
  destruct (Z.ltb_spec (x - x mod shardSize) 0); [lia |].
  unfold U64.of_int64. rewrite wrap_small; [reflexivity |].
  unfold U64.in_range, U64.half, U64.modulus in *. lia.
Qed.

(** A relative start block that lands less than one shard below block 0
    is not refused: the truncated remainder brings it up to 0. *)
Lemma resolveStartBlock_relative_window :
  startBlock < 0 -> - shardSize < irrBlockNum + startBlock < 0 ->
  resolveStartBlock startBlock shardSize irrBlockNum = Ret (0, None).
Proof.
  intros Hneg Hwin. unfold resolveStartBlock.
  rewrite size_as_int64, size_eqb_zero, relative_sum_i64 by assumption.
  destruct (Z.leb_spec 0 startBlock); [lia |].
  set (x := irrBlockNum + startBlock) in *.
  assert (Hrem : Z.rem x shardSize = x).
  { apply Z.rem_small_iff; [lia |]. rewrite Z.abs_neq, (Z.abs_eq shardSize) by lia. lia. }
  rewrite Hrem, Z.sub_diag. reflexivity.
Qed.

End ResolveStartBlock.

(** The relative scenario of the specification: [-100] against an
    irreversible block 1,000,000 and shards of 1000 resolves to 999,000. *)
Example resolveStartBlock_scenario :
  ArchiveApp.resolveStartBlock (-100) 1000 1000000 = Ret (999000, None).
Proof. reflexivity. Qed.

(** C4 at the failing input: a relative start block of [-150] against an
    irreversible block 100 and shards of 1000 lands on [-50], which aligned
    down is [-1000]; the call returns block 0 and no error, while one shard
    further down ([-1150]) it does refuse. *)
Theorem resolveStartBlock_window_not_refused :
  ArchiveApp.resolveStartBlock (-150) 1000 100 = Ret (0, None) /\
  100 + -150 = -50 /\
  (100 + -150) - (100 + -150) mod 1000 = -1000 /\
  ArchiveApp.resolveStartBlock (-1150) 1000 100 =
    Ret (0, Some (ArchiveApp.tooLargeError (-1150) (-1000))).
Proof. repeat split; reflexivity. Qed.

(** ** Archive backend stream *)

Section ArchiveStream.
Import ArchiveBackend.
Context {Match SearchMatch ParsedQuery : Type}.
Variable b : ArchiveBackend Match SearchMatch ParsedQuery.

Lemma rejectUnsupported_None req :
  rejectUnsupported req = None <-> allZeroValued req.
Proof.
  unfold rejectUnsupported, allZeroValued.
  destruct (WithReversible req), (StopAtVirtualHead req);
    try (split; [discriminate | intros (? & ? & _); discriminate]).
  destruct (Z.eqb_spec (LiveMarkerInterval req) 0) as [Hl | Hl];
    [| split; [discriminate | intros (_ & _ & ? & _); contradiction]].
  destruct (String.eqb_spec (NavigateFromBlockID req) EmptyString) as [Hi | Hi];
    [| split; [discriminate | intros (_ & _ & _ & ? & _); contradiction]].
  destruct (Z.eqb_spec (NavigateFromBlockNum req) 0) as [Hn | Hn];
    [| split; [discriminate | intros (_ & _ & _ & _ & ?); contradiction]].
  simpl. split; [intros _; repeat split; assumption | reflexivity].
Qed.

Lemma rejectUnsupported_Some req :
  someNonZero req -> exists err, rejectUnsupported req = Some err.
Proof.
  intros Hsome.
  destruct (rejectUnsupported req) as [err |] eqn:Hrej; [now exists err |].
  apply rejectUnsupported_None in Hrej as (H1 & H2 & H3 & H4 & H5).
  destruct Hsome as [H | [H | [H | [H | H]]]]; congruence.
Qed.

(** C5: a request that sets any of [WithReversible], [StopAtVirtualHead],
    [LiveMarkerInterval], [NavigateFromBlockID], [NavigateFromBlockNum] is
    answered with an error and nothing else happens: the query is not
    parsed and no match is sent.  A request with all five zero-valued
    passes the guards: whenever the handler returns, it has parsed the
    query. *)
Theorem StreamMatches_rejects_unsupported req events :
  (someNonZero req ->
   exists err effs,
     StreamMatches b req events = Some (effs, Some err) /\
     rejectUnsupported req = Some err /\
     parsedIn effs = false /\ sentOf effs = []) /\
  (allZeroValued req ->
   rejectUnsupported req = None /\
   forall effs r, StreamMatches b req events = Some (effs, r) ->
                  parsedIn effs = true).
Proof.
  split.
  - intros Hsome. destruct (rejectUnsupported_Some req Hsome) as [err Herr].
    exists err, []. unfold StreamMatches. rewrite Herr. repeat split.
  - intros Hzero. apply rejectUnsupported_None in Hzero.
    split; [exact Hzero |].
    intros effs r. unfold StreamMatches. rewrite Hzero.
    destruct (NewParsedQuery b (Query req)) as [q | err].
    + destruct (checkBoundaries b req) as [err |].
      * intros Heq. injection Heq as <- _. reflexivity.
      * destruct (streamLoop b events) as [[[effs' t] r'] |]; [| discriminate].
        intros Heq. injection Heq as <- _. reflexivity.
    + intros Heq. injection Heq as <- _. reflexivity.
Qed.


Lemma trailerOf_Sent_cons (response : SearchMatch) effs :
  trailerOf (Sent response :: effs) = trailerOf effs.
Proof. reflexivity. Qed.




Lemma sentOf_app (xs ys : list (effect SearchMatch)) :
  sentOf (xs ++ ys) = sentOf xs ++ sentOf ys.
Proof. unfold sentOf. apply flat_map_app. Qed.




End ArchiveStream.

Lemma StreamMatches_rejects_unsupported_witness :
  (exists err,
     ArchiveBackend.StreamMatches ArchiveBackend.plainBackend
       ArchiveBackend.reversibleRequest [ArchiveBackend.ResultsClosed 42] =
       Some ([], Some err)) /\
  ArchiveBackend.rejectUnsupported ArchiveBackend.plainRequest = None.
Proof.
  split.
  - destruct (proj1 (StreamMatches_rejects_unsupported ArchiveBackend.plainBackend
                       ArchiveBackend.reversibleRequest
                       [ArchiveBackend.ResultsClosed 42]))
      as (err & effs & Heq & _ & _ & Hsent).
    + left. reflexivity.
    + exists err. destruct effs; [exact Heq | discriminate Heq].
  - apply (proj2 (StreamMatches_rejects_unsupported ArchiveBackend.plainBackend
                    ArchiveBackend.plainRequest [])).
    repeat split.
Defined.



(** ** Fork resolver *)

Section ForkResolverGuards.
Import ForkResolver.
Context {Match ParsedQuery SingleIndex : Type} `{SearchMatchI Match}.
Variable f : ForkResolver Match ParsedQuery SingleIndex.
Variable stream : ServerStream.

(** C7: a request without forked block references is answered with an
    [InvalidArgument] status and no match is sent. *)
Theorem StreamUndoMatches_empty_refs req :
  ForkedBlockRefs req = [] ->
  StreamUndoMatches f stream req =
    Ret ([], Some (Status InvalidArgument "invalid argument: no refs requested")).
Proof. intros Hempty. unfold StreamUndoMatches. now rewrite Hempty. Qed.

(** Whatever error the block lookup reports, the handler goes on with the
    blocks it was handed: on an error these are none, so it returns
    without error and without a match. *)
Lemma StreamUndoMatches_lookup_error req q err :
  ForkedBlockRefs req <> [] ->
  NewParsedQuery f (Query req) = inl q ->
  getBlocksDescending f stream (ForkedBlockRefs req) = Ret ([], 0, Some err) ->
  StreamUndoMatches f stream req = Ret ([], None).
Proof.
  intros Hrefs Hparse Hlookup. unfold StreamUndoMatches.
  destruct (ForkedBlockRefs req) as [| r0 refs] eqn:Hreq; [contradiction |].
  cbn [List.length Nat.eqb]. now rewrite Hparse, Hlookup.
Qed.

Lemma boundaryStep_fold refs :
  forall lo hi,
    lo <= hi ->
    let r := fold_left boundaryStep refs (lo, hi) in
    fst r <= lo /\ hi <= snd r /\
    (forall ref, In ref refs -> fst r <= BlockNum ref <= snd r) /\
    (fst r = lo \/ exists ref, In ref refs /\ BlockNum ref = fst r) /\
    (snd r = hi \/ exists ref, In ref refs /\ BlockNum ref = snd r).
Proof.
  induction refs as [| ref refs IH]; intros lo hi Hle; cbn zeta.
  - simpl. split; [lia |]. split; [lia |]. split; [intros ref [] |].
    split; now left.
  - cbn [fold_left].
    pose (lo' := if BlockNum ref <? lo then BlockNum ref else lo).
    pose (hi' := if BlockNum ref >? hi then BlockNum ref else hi).
    change (boundaryStep (lo, hi) ref) with (lo', hi').
    assert (Hlo : lo' <= lo /\ lo' <= BlockNum ref /\ (lo' = lo \/ lo' = BlockNum ref)).
    { unfold lo'. destruct (Z.ltb_spec (BlockNum ref) lo); lia. }
    assert (Hhi : hi <= hi' /\ BlockNum ref <= hi' /\ (hi' = hi \/ hi' = BlockNum ref)).
    { unfold hi'. destruct (Z.gtb_spec (BlockNum ref) hi); lia. }
    destruct (IH lo' hi' ltac:(lia)) as (H1 & H2 & Hall & Hmin & Hmax).
    cbn zeta in *.
    set (r := fold_left boundaryStep refs (lo', hi')) in *.
    split; [lia |]. split; [lia |]. split; [| split].
    + intros ref' [<- | Hin]; [lia | now apply Hall].
    + destruct Hmin as [Heq | (ref' & Hin & Heq)].
      * destruct Hlo as (_ & _ & [Hl | Hl]); [left; lia |].
        right. exists ref. split; [now left | lia].
      * right. exists ref'. split; [now right | exact Heq].
    + destruct Hmax as [Heq | (ref' & Hin & Heq)].
      * destruct Hhi as (_ & _ & [Hh | Hh]); [left; lia |].
        right. exists ref. split; [now left | lia].
      * right. exists ref'. split; [now right | exact Heq].
Qed.

(** C10: [boundaries] indexes the first reference unguarded and panics
    on an empty list, but on every non-empty list it returns the least and
    the greatest block number among the references; [StreamUndoMatches]
    refuses an empty list before anything else, hands only a non-empty list
    to [getBlocksDescending], and so never panics. *)
Theorem boundaries_total_behind_guard :
  boundaries [] = Panic index_out_of_range /\
  (forall refs, refs <> [] ->
     exists lowest highest,
       boundaries refs = Ret (lowest, highest) /\
       (exists ref, In ref refs /\ BlockNum ref = lowest) /\
       (exists ref, In ref refs /\ BlockNum ref = highest) /\
       (forall ref, In ref refs -> lowest <= BlockNum ref <= highest)) /\
  (forall refs,
     refs = [] <-> exists msg, getBlocksDescending f stream refs = Panic msg) /\
  (forall req,
     (ForkedBlockRefs req = [] /\
      exists err, StreamUndoMatches f stream req = Ret ([], Some err)) \/
     (ForkedBlockRefs req <> [] /\
      exists r, StreamUndoMatches f stream req = Ret r)).
Proof.
  split; [reflexivity |]. split.
  - intros [| r0 refs] Hne; [contradiction |].
    pose proof (boundaryStep_fold (r0 :: refs) (BlockNum r0) (BlockNum r0)
                  ltac:(lia)) as Hfold.
    cbn zeta in Hfold.
    unfold boundaries.
    destruct (fold_left boundaryStep (r0 :: refs) (BlockNum r0, BlockNum r0))
      as [lowest highest] eqn:Hres.
    cbn [fst snd] in Hfold. destruct Hfold as (_ & _ & Hall & Hmin & Hmax).
    exists lowest, highest. split; [reflexivity |]. split; [| split].
    + destruct Hmin as [-> | Hex]; [| exact Hex]. exists r0. split; [now left | reflexivity].
    + destruct Hmax as [-> | Hex]; [| exact Hex]. exists r0. split; [now left | reflexivity].
    + exact Hall.
  - split.
  { intros refs. split.
    - intros ->. now exists index_out_of_range.
    - intros [msg Hpanic]. destruct refs as [| r0 refs]; [reflexivity |].
      exfalso. revert Hpanic. unfold getBlocksDescending, boundaries.
      destruct (fold_left boundaryStep (r0 :: refs) (BlockNum r0, BlockNum r0))
        as [lowest highest].
      destruct (ctxDone stream) as [e |]; [discriminate |].
      destruct (runSource highest (blocksFrom f lowest) [] (toMap (r0 :: refs)))
        as [[out complete] srcErr].
      destruct complete; discriminate. }
    intros req. destruct (ForkedBlockRefs req) as [| r0 refs] eqn:Hreq.
    + left. split; [reflexivity |]. eexists.
      unfold StreamUndoMatches. rewrite Hreq. reflexivity.
    + right. split; [discriminate |].
      unfold StreamUndoMatches. rewrite Hreq. cbn [List.length Nat.eqb].
      destruct (NewParsedQuery f (Query req)) as [q | err].
      * unfold getBlocksDescending, boundaries.
        destruct (fold_left boundaryStep (r0 :: refs) (BlockNum r0, BlockNum r0))
          as [lowest highest].
        destruct (ctxDone stream) as [e |]; [eexists; reflexivity |].
        destruct (runSource highest (blocksFrom f lowest) [] (toMap (r0 :: refs)))
          as [[out complete] srcErr].
        destruct complete; eexists; reflexivity.
      * destruct (isContextCanceled err); eexists; reflexivity.
Qed.

End ForkResolverGuards.

Section BlockLookup.
Import ForkResolver.

Lemma toMap_fold_requested refs id :
  forall m : gmap string bool,
    mapGet (fold_left (fun out ref => <[BlockID ref := true]> out) refs m) id = true ->
    mapGet m id = true \/ requested refs id.
Proof.
  induction refs as [| ref refs IH]; intros m Hget; cbn [fold_left] in Hget.
  - now left.
  - apply IH in Hget as [Hget | (ref' & Hin & Hid)].
    + destruct (decide (BlockID ref = id)) as [Heq | Hne].
      * right. exists ref. split; [now left | exact Heq].
      * left. unfold mapGet in *. now rewrite lookup_insert_ne in Hget.
    + right. exists ref'. split; [now right | exact Hid].
Qed.

Lemma toMap_requested refs id : mapGet (toMap refs) id = true -> requested refs id.
Proof.
  intros Hget. apply toMap_fold_requested in Hget as [Hempty | Hreq]; [| exact Hreq].
  unfold mapGet in Hempty. rewrite lookup_empty in Hempty. discriminate.
Qed.

Lemma mapGet_delete_same (m : gmap string bool) id : mapGet (delete id m) id = false.
Proof. unfold mapGet. now rewrite lookup_delete_eq. Qed.

Lemma mapGet_delete_true (m : gmap string bool) id id' :
  mapGet (delete id m) id' = true -> mapGet m id' = true /\ id <> id'.
Proof.
  unfold mapGet. intros Hget.
  destruct (decide (id = id')) as [-> | Hne].
  - rewrite lookup_delete_eq in Hget. discriminate.
  - rewrite lookup_delete_ne in Hget by exact Hne. now split.
Qed.

(** The handler collects each requested id at most once, and nothing
    else. *)
Lemma runSource_collects refs highest blocks :
  forall out refsMap out' complete srcErr,
    runSource highest blocks out refsMap = (out', complete, srcErr) ->
    (forall id, mapGet refsMap id = true -> requested refs id) ->
    (forall b, In b out -> mapGet refsMap (Id b) = false) ->
    (forall b, In b out -> requested refs (Id b)) ->
    NoDup (map Id out) ->
    (forall b, In b out' -> requested refs (Id b)) /\ NoDup (map Id out').
Proof.
  induction blocks as [| blk rest IH];
    intros out refsMap out' complete srcErr Hrun Hmap Hgone Hreq Hnodup;
    cbn [runSource] in Hrun.
  - injection Hrun as <- _ _. now split.
  - destruct (Number blk >? U64.add highest MaxLookupBlocks).
    { injection Hrun as <- _ _. now split. }
    destruct (mapGet refsMap (Id blk)) eqn:Hhit.
    + assert (Hfresh : ~ In (Id blk) (map Id out)).
      { intros Hin. apply in_map_iff in Hin as (b & Hid & Hb).
        apply Hgone in Hb. congruence. }
      assert (Hnodup' : NoDup (map Id (out ++ [blk]))).
      { rewrite map_app. apply NoDup_app. split; [exact Hnodup |]. split.
        - intros x Hx Hx'. apply list_elem_of_In in Hx.
          apply list_elem_of_In in Hx'.
          destruct Hx' as [<- | []]. contradiction.
        - repeat constructor. intros Hx. apply list_elem_of_In in Hx.
          destruct Hx. }
      assert (Hreq' : forall b, In b (out ++ [blk]) -> requested refs (Id b)).
      { intros b Hb. apply in_app_or in Hb as [Hb | [<- | []]];
          [now apply Hreq | now apply Hmap]. }
      destruct (bool_decide (size (delete (Id blk) refsMap) = 0%nat)).
      * injection Hrun as <- _ _. now split.
      * eapply IH; [exact Hrun | | | exact Hreq' | exact Hnodup'].
        -- intros id Hid. apply mapGet_delete_true in Hid as [Hid _].
           now apply Hmap.
        -- intros b Hb.
           destruct (mapGet (delete (Id blk) refsMap) (Id b)) eqn:Hget;
             [| reflexivity].
           apply mapGet_delete_true in Hget as [Hget Hne].
           apply in_app_or in Hb as [Hb | [<- | []]];
             [apply Hgone in Hb; congruence | contradiction].
    + destruct (bool_decide (size refsMap = 0%nat)).
      * injection Hrun as <- _ _. now split.
      * eapply IH; eauto.
Qed.

(** The handler collects nothing but blocks the source hands to it. *)
Lemma runSource_subset highest blocks :
  forall out refsMap out' complete srcErr,
    runSource highest blocks out refsMap = (out', complete, srcErr) ->
    forall b, In b out' -> In b out \/ In b blocks.
Proof.
  induction blocks as [| blk rest IH];
    intros out refsMap out' complete srcErr Hrun b Hb; cbn [runSource] in Hrun.
  - injection Hrun as <- _ _. now left.
  - destruct (Number blk >? U64.add highest MaxLookupBlocks).
    { injection Hrun as <- _ _. now left. }
    destruct (mapGet refsMap (Id blk)).
    + destruct (bool_decide (size (delete (Id blk) refsMap) = 0%nat)).
      * injection Hrun as <- _ _.
        apply in_app_or in Hb as [Hb | [<- | []]];
          [now left | right; now left].
      * destruct (IH _ _ _ _ _ Hrun b Hb) as [Hin | Hin]; [| right; now right].
        apply in_app_or in Hin as [Hin | [<- | []]];
          [now left | right; now left].
    + destruct (bool_decide (size refsMap = 0%nat)).
      * injection Hrun as <- _ _. now left.
      * destruct (IH _ _ _ _ _ Hrun b Hb) as [Hin | Hin];
          [now left | right; now right].
Qed.

Lemma insertDescending_Permutation blk blocks :
  Permutation (insertDescending blk blocks) (blk :: blocks).
Proof.
  induction blocks as [| b rest IH]; simpl.
  - reflexivity.
  - destruct (Number b >? Number blk); [| reflexivity].
    rewrite IH. apply perm_swap.
Qed.

Lemma insertDescending_sorted blk blocks :
  StronglySorted descendingNumber blocks ->
  StronglySorted descendingNumber (insertDescending blk blocks).
Proof.
  induction 1 as [| b rest Hsorted IH Hall]; simpl.
  - repeat constructor.
  - destruct (Z.gtb_spec (Number b) (Number blk)) as [Hgt | Hle].
    + constructor; [exact IH |].
      rewrite (insertDescending_Permutation blk rest).
      constructor; [unfold descendingNumber; lia | exact Hall].
    + constructor; [now constructor |].
      constructor; [unfold descendingNumber; lia |].
      eapply Forall_impl; [exact Hall |].
      unfold descendingNumber. intros c Hc. lia.
Qed.

Lemma sortDescending_Permutation blocks : Permutation (sortDescending blocks) blocks.
Proof.
  induction blocks as [| blk rest IH]; simpl; [reflexivity |].
  unfold sortDescending in *. cbn [fold_right].
  rewrite insertDescending_Permutation. now constructor.
Qed.

Lemma sortDescending_sorted blocks :
  StronglySorted descendingNumber (sortDescending blocks).
Proof.
  induction blocks as [| blk rest IH]; [constructor |].
  apply insertDescending_sorted. exact IH.
Qed.

End BlockLookup.

Lemma StronglySorted_rev_flip {A} (R : A -> A -> Prop) (l : list A) :
  StronglySorted R l -> StronglySorted (fun a b => R b a) (rev l).
Proof.
  induction 1 as [| x l Hsorted IH Hall]; simpl; [constructor |].
  apply StronglySorted_app_2; [| exact IH | repeat constructor].
  intros x1 x2 Hx1 Hx2.
  apply list_elem_of_In in Hx1. apply list_elem_of_In in Hx2.
  destruct Hx2 as [<- | []].
  apply in_rev in Hx1. rewrite List.Forall_forall in Hall. now apply Hall.
Qed.

Section UndoOrder.
Import ForkResolver.
Context {Match ParsedQuery SingleIndex : Type} `{SearchMatchI Match}.
Variable f : ForkResolver Match ParsedQuery SingleIndex.
Variable stream : ServerStream.

(** What the resolver relies on from its collaborators: a single-index
    query run with [sortDesc = false] lists its matches by ascending
    transaction index, and filling in the chain-specific part of a message
    leaves the fields set by the resolver alone. *)
Hypothesis query_ascending :
  forall q idx ms,
    RunSingleIndexQuery f q idx = inl ms ->
    StronglySorted (fun a b => GetIndex a <= GetIndex b) ms.
Hypothesis fill_frame :
  forall m pb blk, undoFields (fst (FillProtoSpecific m pb blk)) = undoFields pb.

Lemma fromBlock_fields blk libnum pb m :
  fromBlock blk libnum pb m ->
  Index pb = GetIndex m /\
  MatchCursor pb = NewCursor (Number blk) (Id blk) (TransactionIDPrefix m) /\
  BlockNum' pb = Number blk /\ Undo pb = true.
Proof.
  unfold fromBlock, undoFields, newUndoMatch. cbn.
  intros Heq. injection Heq as H1 H2 H3 H4. now repeat split.
Qed.

Lemma getBlocksDescending_blocks refs blocks libnum e :
  getBlocksDescending f stream refs = Ret (blocks, libnum, e) ->
  StronglySorted descendingNumber blocks /\
  NoDup (map Id blocks) /\
  (forall b, In b blocks -> requested refs (Id b)).
Proof.
  unfold getBlocksDescending.
  destruct (boundaries refs) as [[lowest highest] | msg]; [| discriminate].
  assert (Hnil : StronglySorted descendingNumber [] /\
                 NoDup (map Id []) /\
                 (forall b : Block, In b [] -> requested refs (Id b))).
  { split; [constructor |]. split; [constructor | intros b []]. }
  destruct (ctxDone stream) as [err |].
  { intros Heq. injection Heq as <- _ _. exact Hnil. }
  destruct (runSource highest (blocksFrom f lowest) [] (toMap refs))
    as [[out complete] srcErr] eqn:Hrun.
  destruct complete; cbn [negb].
  2: { intros Heq. injection Heq as <- _ _. exact Hnil. }
  intros Heq. injection Heq as <- _ _.
  apply (runSource_collects refs) in Hrun as [Hreq Hnodup].
  - split; [apply sortDescending_sorted |]. split.
    + now rewrite (Permutation_map Id (sortDescending_Permutation out)).
    + intros b Hb. apply Hreq.
      eapply Permutation_in; [apply sortDescending_Permutation | exact Hb].
  - apply toMap_requested.
  - intros b [].
  - intros b [].
  - constructor.
Qed.

(** The inner loop adds, for a leading part of the matches it visits, one
    message each, in that order. *)
Lemma emitMatches_shape blk libnum visited :
  forall sent,
  exists new ms rest,
    emitted (emitMatches stream blk libnum visited sent) = sent ++ new /\
    visited = ms ++ rest /\
    Forall2 (fromBlock blk libnum) new ms.
Proof.
  induction visited as [| m visited IH]; intros sent.
  - exists [], [], []. cbn. rewrite app_nil_r. repeat split. constructor.
  - cbn [emitMatches].
    pose proof (fill_frame m (newUndoMatch blk libnum m) blk) as Hframe.
    destruct (FillProtoSpecific m (newUndoMatch blk libnum m) blk) as [pb err].
    cbn [fst] in Hframe.
    assert (Hstop : exists new ms rest,
               sent = sent ++ new /\ m :: visited = ms ++ rest /\
               Forall2 (fromBlock blk libnum) new ms).
    { exists [], [], (m :: visited). rewrite app_nil_r.
      repeat split. constructor. }
    destruct err as [e |]; [exact Hstop |].
    destruct (ctxErr stream sent); [exact Hstop |].
    destruct (Send stream sent pb) as [e |]; [exact Hstop |].
    destruct (IH (sent ++ [pb])) as (new & ms & rest & Hsent & Hvis & Hall).
    exists (pb :: new), (m :: ms), rest. split; [| split].
    + rewrite Hsent, <- app_assoc. reflexivity.
    + now rewrite Hvis.
    + constructor; [exact Hframe | exact Hall].
Qed.

Lemma fromBlock_after blk libnum pb m new ms :
  fromBlock blk libnum pb m ->
  Forall2 (fromBlock blk libnum) new ms ->
  Forall (fun m' => GetIndex m' <= GetIndex m) ms ->
  Forall (undoOrder pb) new.
Proof.
  intros Hpb. induction 1 as [| pb' m' new ms Hpb' _ IH]; intros Hall.
  - constructor.
  - apply Forall_cons in Hall as [Hle Hall].
    constructor; [| now apply IH].
    apply fromBlock_fields in Hpb as (Hi & _ & Hn & _).
    apply fromBlock_fields in Hpb' as (Hi' & _ & Hn' & _).
    unfold undoOrder. split; [lia |]. intros _. lia.
Qed.

Lemma fromBlock_sorted blk libnum new ms :
  Forall2 (fromBlock blk libnum) new ms ->
  StronglySorted (fun a b => GetIndex b <= GetIndex a) ms ->
  StronglySorted undoOrder new /\
  Forall (fun pb => BlockNum' pb = Number blk /\
                    cursorBlockID (MatchCursor pb) = Id blk /\
                    Undo pb = true) new.
Proof.
  induction 1 as [| pb m new ms Hpb Hrest IH]; intros Hsorted.
  - split; constructor.
  - apply StronglySorted_inv in Hsorted as [Hsorted Hall].
    destruct (IH Hsorted) as [IHs IHf].
    split; constructor; try assumption.
    + eapply fromBlock_after; eauto.
    + apply fromBlock_fields in Hpb as (_ & Hc & Hn & Hu).
      rewrite Hc. now repeat split.
Qed.

Lemma streamBlocks_order refs q libnum blocks :
  forall sent,
    StronglySorted descendingNumber blocks ->
    NoDup (map Id blocks) ->
    (forall b, In b blocks -> requested refs (Id b)) ->
    StronglySorted undoOrder sent ->
    Forall (undoOf refs) sent ->
    (forall a b, In a sent -> In b blocks ->
       BlockNum' a >= Number b /\ cursorBlockID (MatchCursor a) <> Id b) ->
    StronglySorted undoOrder (fst (streamBlocks f stream q libnum blocks sent)) /\
    Forall (undoOf refs) (fst (streamBlocks f stream q libnum blocks sent)).
Proof.
  induction blocks as [| blk rest IH];
    intros sent Hblocks Hnodup Hreq Hsent Hgood Hcross; cbn [streamBlocks].
  - now split.
  - destruct (createSingleIndex f blk) as [idx | err]; [| now split].
    destruct (RunSingleIndexQuery f q idx) as [matches | err] eqn:Hquery;
      [| destruct (isContextCanceled err); now split].
    destruct (emitMatches_shape blk libnum (rev matches) sent)
      as (new & ms & tail & Hemit & Hvis & Hall).
    assert (Hms : StronglySorted (fun a b => GetIndex b <= GetIndex a) ms).
    { apply query_ascending, StronglySorted_rev_flip in Hquery.
      rewrite Hvis in Hquery. now apply StronglySorted_app_1_l in Hquery. }
    destruct (fromBlock_sorted blk libnum new ms Hall Hms) as [Hnew Hfields].
    rewrite List.Forall_forall in Hfields.
    apply StronglySorted_inv in Hblocks as [Hrest Hbelow].
    apply NoDup_cons in Hnodup as [Hfresh Hnodup].
    assert (Hsent' : StronglySorted undoOrder (sent ++ new)).
    { apply StronglySorted_app_2; [| exact Hsent | exact Hnew].
      intros a b Ha Hb.
      apply list_elem_of_In in Ha. apply list_elem_of_In in Hb.
      destruct (Hcross a blk Ha ltac:(now left)) as [Hnum Hid].
      destruct (Hfields b Hb) as (Hn & Hc & _).
      unfold undoOrder. rewrite Hn, Hc. split; [exact Hnum | contradiction]. }
    assert (Hgood' : Forall (undoOf refs) (sent ++ new)).
    { apply Forall_app. split; [exact Hgood |].
      apply List.Forall_forall. intros b Hb.
      destruct (Hfields b Hb) as (_ & Hc & Hu).
      split; [exact Hu |]. rewrite Hc. apply Hreq. now left. }
    destruct (emitMatches stream blk libnum (rev matches) sent)
      as [sent' | [sent' r]]; cbn [emitted] in Hemit; subst sent'.
    + apply IH; try assumption.
      * intros b Hb. apply Hreq. now right.
      * intros a b Ha Hb. apply in_app_or in Ha as [Ha | Ha].
        -- apply Hcross; [exact Ha | now right].
        -- destruct (Hfields a Ha) as (Hn & Hc & _). rewrite Hn, Hc.
           rewrite List.Forall_forall in Hbelow. split.
           ++ apply Hbelow. exact Hb.
           ++ intros Heq. apply Hfresh. rewrite Heq.
              apply list_elem_of_In. now apply in_map.
    + now split.
Qed.

Lemma undoOrder_blocks sent :
  StronglySorted undoOrder sent ->
  StronglySorted (fun a b => BlockNum' a >= BlockNum' b) sent.
Proof.
  induction 1 as [| pb sent Hsorted IH Hall]; constructor; [exact IH |].
  eapply Forall_impl; [exact Hall |]. now intros b [Hb _].
Qed.

Lemma undoOrder_within_block id sent :
  StronglySorted undoOrder sent ->
  StronglySorted (fun a b => Index a >= Index b) (List.filter (ofBlock id) sent).
Proof.
  induction 1 as [| pb sent Hsorted IH Hall]; cbn [List.filter]; [constructor |].
  destruct (ofBlock id pb) eqn:Hpb; [| exact IH].
  constructor; [exact IH |].
  apply List.Forall_forall. intros b Hb.
  apply filter_In in Hb as [Hb Hid].
  rewrite List.Forall_forall in Hall. destruct (Hall b Hb) as [_ Hidx].
  apply Hidx. unfold ofBlock in *.
  apply String.eqb_eq in Hpb, Hid. congruence.
Qed.

(** The blocks [getBlocksDescending] returns come from the file source
    started at the lowest requested number. *)
Lemma getBlocksDescending_source refs blocks libnum e :
  getBlocksDescending f stream refs = Ret (blocks, libnum, e) ->
  blocks = [] \/
  exists lowest highest,
    boundaries refs = Ret (lowest, highest) /\
    forall b, In b blocks -> In b (blocksFrom f lowest).
Proof.
  unfold getBlocksDescending.
  destruct (boundaries refs) as [[lowest highest] | msg]; [| discriminate].
  destruct (ctxDone stream) as [err |].
  { intros Heq. injection Heq as <- _ _. now left. }
  destruct (runSource highest (blocksFrom f lowest) [] (toMap refs))
    as [[out complete] srcErr] eqn:Hrun.
  destruct complete; cbn [negb].
  2: { intros Heq. injection Heq as <- _ _. now left. }
  intros Heq. injection Heq as <- _ _. right.
  exists lowest, highest. split; [reflexivity |].
  intros b Hb.
  apply (Permutation_in _ (sortDescending_Permutation out)) in Hb.
  destruct (runSource_subset _ _ _ _ _ _ _ Hrun b Hb) as [[] | Hin].
  exact Hin.
Qed.

Lemma fromBlock_undoOfBlock blk libnum new ms :
  Forall2 (fromBlock blk libnum) new ms ->
  Forall (ForkResolverStream.undoOfBlock blk) new.
Proof.
  induction 1 as [| pb m new ms Hpb _ IH]; constructor; [| exact IH].
  apply fromBlock_fields in Hpb as (_ & Hc & Hn & Hu).
  unfold ForkResolverStream.undoOfBlock. rewrite Hc. now repeat split.
Qed.

(** Each match the outer loop adds is the undo of a match of one of the
    blocks it goes through. *)
Lemma streamBlocks_source (P : Block -> Prop) q libnum blocks :
  forall sent,
    (forall b, In b blocks -> P b) ->
    Forall (fun pb => exists blk, P blk /\ ForkResolverStream.undoOfBlock blk pb)
           sent ->
    Forall (fun pb => exists blk, P blk /\ ForkResolverStream.undoOfBlock blk pb)
           (fst (streamBlocks f stream q libnum blocks sent)).
Proof.
  induction blocks as [| blk rest IH]; intros sent HP Hsent; cbn [streamBlocks].
  - exact Hsent.
  - destruct (createSingleIndex f blk) as [idx | err]; [| exact Hsent].
    destruct (RunSingleIndexQuery f q idx) as [matches | err];
      [| destruct (isContextCanceled err); exact Hsent].
    destruct (emitMatches_shape blk libnum (rev matches) sent)
      as (new & ms & tail & Hemit & _ & Hall).
    assert (Hsent' : Forall (fun pb => exists blk0,
                                 P blk0 /\ ForkResolverStream.undoOfBlock blk0 pb)
                            (sent ++ new)).
    { apply Forall_app. split; [exact Hsent |].
      apply fromBlock_undoOfBlock in Hall.
      eapply Forall_impl; [exact Hall |].
      intros pb Hpb. exists blk. split; [apply HP; now left | exact Hpb]. }
    destruct (emitMatches stream blk libnum (rev matches) sent)
      as [sent' | [sent' r]]; cbn [emitted] in Hemit; subst sent'.
    + apply IH; [| exact Hsent']. intros b Hb. apply HP. now right.
    + exact Hsent'.
Qed.

(** C8: under the two assumptions above, the matches
    [StreamUndoMatches] sends are in descending order of block number;
    those of one block (one cursor block id) are in descending order of
    transaction index; each has [Undo] set and a cursor with the id of one
    of the requested forked blocks; and each is the undo of a match of one
    block that the file source handed out and whose id was requested: it
    has the number of that block, and its cursor has the id and the number
    of that same block. *)
Theorem StreamUndoMatches_undo_order req sent r :
  StreamUndoMatches f stream req = Ret (sent, r) ->
  StronglySorted (fun a b => BlockNum' a >= BlockNum' b) sent /\
  (forall id,
     StronglySorted (fun a b => Index a >= Index b)
                    (List.filter (ofBlock id) sent)) /\
  Forall (fun pb => Undo pb = true /\
                    requested (ForkedBlockRefs req)
                              (cursorBlockID (MatchCursor pb))) sent /\
  Forall (fun pb =>
            exists blk lowest highest,
              boundaries (ForkedBlockRefs req) = Ret (lowest, highest) /\
              In blk (blocksFrom f lowest) /\
              requested (ForkedBlockRefs req) (Id blk) /\
              ForkResolverStream.undoOfBlock blk pb) sent.
Proof.
  intros Hrun.
  assert (Hsource :
    Forall (fun pb =>
              exists blk,
                (exists lowest highest,
                   boundaries (ForkedBlockRefs req) = Ret (lowest, highest) /\
                   In blk (blocksFrom f lowest) /\
                   requested (ForkedBlockRefs req) (Id blk)) /\
                ForkResolverStream.undoOfBlock blk pb) sent).
  { unfold StreamUndoMatches in Hrun.
    destruct (List.length (ForkedBlockRefs req) =? 0)%nat.
    { injection Hrun as <- _. constructor. }
    destruct (NewParsedQuery f (Query req)) as [q | err].
    2: { destruct (isContextCanceled err); injection Hrun as <- _; constructor. }
    destruct (getBlocksDescending f stream (ForkedBlockRefs req))
      as [[[blocks libnum] e] | msg] eqn:Hlookup; [| discriminate].
    injection Hrun as Hrun.
    pose proof (getBlocksDescending_blocks _ _ _ _ Hlookup) as (_ & _ & Hreq).
    pose proof (streamBlocks_source
                  (fun blk => exists lowest highest,
                     boundaries (ForkedBlockRefs req) = Ret (lowest, highest) /\
                     In blk (blocksFrom f lowest) /\
                     requested (ForkedBlockRefs req) (Id blk))
                  q libnum blocks []) as Hsrc.
    rewrite Hrun in Hsrc. cbn [fst] in Hsrc.
    apply Hsrc; [| constructor].
    intros blk Hblk.
    destruct (getBlocksDescending_source _ _ _ _ Hlookup)
      as [-> | (lowest & highest & Hb & Hfrom)]; [destruct Hblk |].
    exists lowest, highest. split; [exact Hb |].
    split; [now apply Hfrom | now apply Hreq]. }
  assert (Hboth : StronglySorted undoOrder sent /\
                  Forall (undoOf (ForkedBlockRefs req)) sent).
  { unfold StreamUndoMatches in Hrun.
    destruct (List.length (ForkedBlockRefs req) =? 0)%nat.
    { injection Hrun as <- _. split; constructor. }
    destruct (NewParsedQuery f (Query req)) as [q | err].
    2: { destruct (isContextCanceled err); injection Hrun as <- _;
           split; constructor. }
    destruct (getBlocksDescending f stream (ForkedBlockRefs req))
      as [[[blocks libnum] e] | msg] eqn:Hlookup; [| discriminate].
    apply getBlocksDescending_blocks in Hlookup as (Hsorted & Hnodup & Hreq).
    pose proof (streamBlocks_order (ForkedBlockRefs req) q libnum blocks []
                  Hsorted Hnodup Hreq) as Horder.
    injection Hrun as Hrun.
    rewrite Hrun in Horder. cbn [fst] in Horder.
    apply Horder; [constructor | constructor | intros a b []]. }
  destruct Hboth as [Horder Hundo].
  split; [now apply undoOrder_blocks |].
  split; [intros id; now apply undoOrder_within_block |].
  split; [exact Hundo |].
  eapply Forall_impl; [exact Hsource |].
  intros pb (blk & (lowest & highest & Hb & Hin & Hreq) & Hpb).
  now exists blk, lowest, highest.
Qed.

End UndoOrder.

(** ** Fork resolver on sample stores *)

Lemma StreamUndoMatches_empty_refs_witness :
  ForkResolver.StreamUndoMatches ForkResolver.canonicalResolver
    ForkResolver.quietStream ForkResolver.emptyRequest =
  Ret ([], Some (Status InvalidArgument "invalid argument: no refs requested")).
Proof.
  apply (StreamUndoMatches_empty_refs ForkResolver.canonicalResolver
           ForkResolver.quietStream ForkResolver.emptyRequest).
  reflexivity.
Defined.

Lemma boundaries_total_behind_guard_witness :
  exists lowest highest,
    ForkResolver.boundaries (ForkResolver.ForkedBlockRefs ForkResolver.forkRequest) =
      Ret (lowest, highest) /\
    (exists ref, In ref (ForkResolver.ForkedBlockRefs ForkResolver.forkRequest) /\
                 ForkResolver.BlockNum ref = lowest) /\
    (exists ref, In ref (ForkResolver.ForkedBlockRefs ForkResolver.forkRequest) /\
                 ForkResolver.BlockNum ref = highest) /\
    (forall ref, In ref (ForkResolver.ForkedBlockRefs ForkResolver.forkRequest) ->
                 lowest <= ForkResolver.BlockNum ref <= highest).
Proof.
  apply (proj1 (proj2 (boundaries_total_behind_guard
                         ForkResolver.forkedResolver ForkResolver.quietStream))).
  discriminate.
Defined.

Lemma StreamUndoMatches_undo_order_witness :
  exists sent,
    ForkResolver.StreamUndoMatches ForkResolver.forkedResolver
      ForkResolver.quietStream ForkResolver.forkRequest = Ret (sent, None) /\
    map ForkResolver.BlockNum' sent = [501; 501; 500; 500] /\
    map ForkResolver.Index sent = [1; 0; 1; 0] /\
    StronglySorted (fun a b => ForkResolver.BlockNum' a >= ForkResolver.BlockNum' b)
                   sent /\
    (forall id,
       StronglySorted (fun a b => ForkResolver.Index a >= ForkResolver.Index b)
                      (List.filter (ForkResolver.ofBlock id) sent)) /\
    Forall (fun pb => ForkResolver.Undo pb = true /\
                      ForkResolver.requested
                        (ForkResolver.ForkedBlockRefs ForkResolver.forkRequest)
                        (ForkResolver.cursorBlockID (ForkResolver.MatchCursor pb)))
           sent /\
    Forall (fun pb =>
              exists blk lowest highest,
                ForkResolver.boundaries
                  (ForkResolver.ForkedBlockRefs ForkResolver.forkRequest)
                  = Ret (lowest, highest) /\
                In blk (ForkResolver.blocksFrom ForkResolver.forkedResolver lowest) /\
                ForkResolver.requested
                  (ForkResolver.ForkedBlockRefs ForkResolver.forkRequest)
                  (ForkResolver.Id blk) /\
                ForkResolverStream.undoOfBlock blk pb) sent.
Proof.
  eexists. split; [vm_compute; reflexivity |].
  split; [reflexivity |]. split; [reflexivity |].
  apply (StreamUndoMatches_undo_order ForkResolver.forkedResolver
           ForkResolver.quietStream)
    with (req := ForkResolver.forkRequest) (r := None).
  - intros q idx ms Hms. injection Hms as <-.
    repeat constructor. simpl. lia.
  - intros m pb blk. reflexivity.
  - vm_compute. reflexivity.
Defined.

(** C1 at the failing input: the one requested block, ["dead"] at 500, is
    not among the 10,002 blocks the store holds from 500 on.  The lookup
    ends on block 10,501 with the [NotFound] status that carries "not found
    within 10000 blocks"; the handler does not look at it and returns
    without error and without a match. *)
Theorem StreamUndoMatches_drops_not_found :
  existsb (fun blk => String.eqb (ForkResolver.Id blk) "dead")
          (ForkResolver.blocksFrom ForkResolver.canonicalResolver 500) = false /\
  ForkResolver.getBlocksDescending ForkResolver.canonicalResolver
    ForkResolver.quietStream
    (ForkResolver.ForkedBlockRefs ForkResolver.deadRequest) =
    Ret ([], 0, Some (Status NotFound "not found within 10000 blocks")) /\
  ForkResolver.StreamUndoMatches ForkResolver.canonicalResolver
    ForkResolver.quietStream ForkResolver.deadRequest = Ret ([], None).
Proof. repeat split; vm_compute; reflexivity. Qed.

(** * Further properties *)

(** ** Shard arithmetic *)

Section ShardArithmetic.
Import ShardModel ShardChains.

Lemma align_value shardSize x :
  0 < shardSize -> U64.in_range x ->
  U64.sub x (x mod shardSize) = shardSize * (x / shardSize).
Proof.
  intros Hs Hx. unfold U64.sub.
  pose proof (Z.mod_pos_bound x shardSize Hs) as Hm.
  pose proof (Z.div_mod x shardSize ltac:(lia)) as Hd.
  assert (Hle : x mod shardSize <= x).
  { apply Z.mod_le; unfold U64.in_range in Hx; lia. }
  rewrite wrap_small by (unfold U64.in_range in *; lia). lia.
Qed.

Lemma align_within_shard shardSize startBlock :
  0 < shardSize -> U64.in_range startBlock ->
  exists r, alignStartBlock shardSize startBlock = Ret r /\
            r mod shardSize = 0 /\
            r <= startBlock < r + shardSize.
Proof.
  intros Hs Hx. unfold alignStartBlock.
  destruct (Z.eqb_spec shardSize 0) as [Hz | _]; [lia |].
  eexists. split; [reflexivity |].
  rewrite align_value by assumption.
  pose proof (Z.mod_pos_bound startBlock shardSize Hs) as Hm.
  pose proof (Z.div_mod startBlock shardSize ltac:(lia)) as Hd.
  split; [| lia].
  rewrite Z.mul_comm. apply Z.mod_mul. lia.
Qed.

(** X1: for a positive shard size, [alignStartBlock] returns the
    multiple of the shard size at or below the start block, less than one
    shard away from it. *)
Theorem alignStartBlock_bounds shardSize startBlock :
  0 < shardSize -> U64.in_range startBlock ->
  exists r, alignStartBlock shardSize startBlock = Ret r /\
            r mod shardSize = 0 /\
            r <= startBlock < r + shardSize.
Proof. apply align_within_shard. Qed.

Lemma alignStartBlock_bounds_witness :
  exists r, alignStartBlock 5000 12345 = Ret r /\
            r mod 5000 = 0 /\ r <= 12345 < r + 5000.
Proof.
  apply (alignStartBlock_bounds 5000 12345);
    unfold U64.in_range, U64.modulus; simpl; lia.
Defined.

Lemma take_digits_shape n :
  forall s d rest,
    take_digits n s = Some (d, rest) ->
    String.length d = n /\ all_digits d /\ s = (d +:+ rest)%string.
Proof.
  induction n as [| n IH]; intros s d rest; simpl.
  - intros Heq. injection Heq as <- <-. repeat split. constructor.
  - destruct s as [| c s]; [discriminate |].
    destruct (is_digit c) eqn:Hc; [| discriminate].
    destruct (take_digits n s) as [[d' rest'] |] eqn:Htake; [| discriminate].
    intros Heq. injection Heq as <- <-.
    destruct (IH _ _ _ Htake) as (Hlen & Hall & ->).
    split; [simpl; now rewrite Hlen |]. split; [| reflexivity].
    unfold all_digits. simpl. now constructor.
Qed.

Lemma FindStringSubmatch_digits s :
  forall d, FindStringSubmatch s = Some d ->
            String.length d = 10%nat /\ all_digits d.
Proof.
  induction s as [| c s IH]; intros d; cbn [FindStringSubmatch].
  - unfold match_here. simpl. discriminate.
  - destruct (match_here (String c s)) as [d' |] eqn:Hhere.
    + intros Heq. injection Heq as <-. unfold match_here in Hhere.
      destruct (take_digits 10 (String c s)) as [[d0 rest] |] eqn:Htake;
        [| discriminate].
      destruct (String.prefix ".avro" rest); [| discriminate].
      injection Hhere as <-.
      apply take_digits_shape in Htake as (Hlen & Hall & _). now split.
    + apply IH.
Qed.

Lemma digit_value_bounds c : is_digit c = true -> 0 <= digit_value c <= 9.
Proof.
  unfold is_digit, digit_value. intros Hc.
  apply andb_true_iff in Hc as [H1 H2].
  apply Z.leb_le in H1. apply Z.leb_le in H2. lia.
Qed.

Lemma parse_decimal_bounds d :
  all_digits d ->
  forall acc, 0 <= acc ->
    acc * 10 ^ Z.of_nat (String.length d) <= parse_decimal acc d
      < (acc + 1) * 10 ^ Z.of_nat (String.length d).
Proof.
  induction d as [| c d IH]; intros Hall acc Hacc.
  - simpl. lia.
  - unfold all_digits in Hall. simpl in Hall.
    apply Forall_cons in Hall as [Hc Hall].
    apply digit_value_bounds in Hc.
    cbn [parse_decimal String.length].
    specialize (IH Hall (10 * acc + digit_value c) ltac:(lia)).
    rewrite Nat2Z.inj_succ, Z.pow_succ_r by lia.
    set (p := 10 ^ Z.of_nat (String.length d)) in *.
    assert (0 < p) by (apply Z.pow_pos_nonneg; lia).
    nia.
Qed.

(** A base read off a listed name is a ten-digit number. *)
Lemma basesOf_bounds remote c :
  In c (basesOf remote) -> 0 <= c < 10 ^ 10.
Proof.
  unfold basesOf. intros Hin. apply in_flat_map in Hin as (file & _ & Hc).
  destruct (FindStringSubmatch file) as [d |] eqn:Hfind; [| destruct Hc].
  destruct Hc as [<- | []].
  apply FindStringSubmatch_digits in Hfind as [Hlen Hall].
  pose proof (parse_decimal_bounds d Hall 0 ltac:(lia)) as Hb.
  rewrite Hlen in Hb. unfold startBlockFromFileName.
  change (Z.of_nat 10) with 10 in Hb. lia.
Qed.

Lemma scanRemote_forward shardSize base remote :
  U64.in_range base ->
  base <= scanRemote shardSize base remote base /\
  U64.in_range (scanRemote shardSize base remote base).
Proof.
  intros Hb. rewrite scanRemote_followChain.
  destruct (followChain_In shardSize (candidatesAfter base remote) base)
    as [-> | Hin]; [split; [lia | exact Hb] |].
  unfold candidatesAfter in *. apply filter_In in Hin as [Hin Hgt].
  apply basesOf_bounds in Hin.
  apply negb_true_iff, Z.leb_gt in Hgt.
  assert (Hpow : 10 ^ 10 < 2 ^ 64) by reflexivity.
  unfold U64.in_range, U64.modulus in *. split; lia.
Qed.

Lemma nextBase_multiple_forward shardSize remote startBlockNum :
  0 < shardSize -> U64.in_range startBlockNum ->
  exists next aligned,
    NextBaseBlockAfter shardSize (Some remote) startBlockNum = Ret next /\
    alignStartBlock shardSize startBlockNum = Ret aligned /\
    next mod shardSize = 0 /\
    aligned <= next.
Proof.
  intros Hs Hb.
  destruct (scanRemote_forward shardSize startBlockNum remote Hb) as [Hfwd Hrange].
  unfold NextBaseBlockAfter, alignStartBlock.
  destruct (Z.eqb_spec shardSize 0) as [Hz | _]; [lia |].
  eexists _, _. split; [reflexivity |]. split; [reflexivity |].
  rewrite !align_value by assumption. split.
  - rewrite Z.mul_comm. apply Z.mod_mul. lia.
  - apply Z.mul_le_mono_nonneg_l; [lia |].
    apply Z.div_le_mono; lia.
Qed.

(** X2: with a listing at hand and a positive shard size,
    [NextBaseBlockAfter] returns a multiple of the shard size, and it never
    goes back below the shard the start block lies in. *)
Theorem NextBaseBlockAfter_aligned_forward shardSize remote startBlockNum :
  0 < shardSize -> U64.in_range startBlockNum ->
  exists next aligned,
    NextBaseBlockAfter shardSize (Some remote) startBlockNum = Ret next /\
    alignStartBlock shardSize startBlockNum = Ret aligned /\
    next mod shardSize = 0 /\
    aligned <= next.
Proof. apply nextBase_multiple_forward. Qed.

Lemma NextBaseBlockAfter_aligned_forward_witness :
  exists next aligned,
    NextBaseBlockAfter 5000 (Some prefixedListing) 1234 = Ret next /\
    alignStartBlock 5000 1234 = Ret aligned /\
    next mod 5000 = 0 /\ aligned <= next.
Proof.
  apply (NextBaseBlockAfter_aligned_forward 5000 prefixedListing 1234);
    unfold U64.in_range, U64.modulus; simpl; lia.
Defined.

Lemma last_cons_default {A} (l : list A) :
  forall a d, List.last (a :: l) d = List.last l a.
Proof.
  induction l as [| b l IH]; intros a d; [reflexivity |].
  change (List.last (a :: b :: l) d) with (List.last (b :: l) d).
  now rewrite !IH.
Qed.

Lemma followChain_noGap shardSize cands :
  forall previous,
    noGap shardSize previous cands = true ->
    followChain shardSize previous cands = List.last cands previous.
Proof.
  induction cands as [| c cs IH]; intros previous Hgap; [reflexivity |].
  cbn [noGap] in Hgap. apply andb_true_iff in Hgap as [Hc Hgap].
  apply negb_true_iff in Hc. cbn [followChain]. rewrite Hc.
  rewrite (IH c Hgap). symmetry. apply last_cons_default.
Qed.

(** X3: when each listed base above the start block is at most one shard
    size above the one before it (the first one above the start block
    itself), [NextBaseBlockAfter] resumes at the last of them, aligned. *)
Theorem NextBaseBlockAfter_no_gap shardSize remote startBlockNum :
  noGap shardSize startBlockNum (candidatesAfter startBlockNum remote) = true ->
  NextBaseBlockAfter shardSize (Some remote) startBlockNum =
    alignStartBlock shardSize
      (List.last (candidatesAfter startBlockNum remote) startBlockNum).
Proof.
  intros Hgap. unfold NextBaseBlockAfter.
  now rewrite scanRemote_followChain, followChain_noGap.
Qed.

Lemma NextBaseBlockAfter_no_gap_witness :
  NextBaseBlockAfter 5000 (Some prefixedListing) 0 =
    alignStartBlock 5000 (List.last (candidatesAfter 0 prefixedListing) 0).
Proof.
  apply (NextBaseBlockAfter_no_gap 5000 prefixedListing 0).
  vm_compute. reflexivity.
Defined.

(** X4: two shards created one shard size apart tile the blocks between
    them: a block number of the doubled range lies in exactly one of the
    two, and no other block number lies in either. *)
Theorem adjacent_shards_tile base shardSize n :
  U64.in_range base -> 0 < shardSize ->
  base + 2 * shardSize - 1 <= U64.MaxUint64 ->
  let lower := newShardIndex base shardSize in
  let upper := newShardIndex (base + shardSize) shardSize in
  StartBlock upper = EndBlock lower + 1 /\
  (xorb (containsBlockNum lower n) (containsBlockNum upper n) = true <->
     base <= n <= base + 2 * shardSize - 1) /\
  (containsBlockNum lower n && containsBlockNum upper n = false).
Proof.
  intros Hb Hs Hfit. cbv zeta.
  unfold U64.in_range, U64.MaxUint64, U64.modulus in *.
  rewrite (newShardIndex_fields base shardSize)
    by (unfold U64.in_range, U64.MaxUint64, U64.modulus; lia).
  rewrite (newShardIndex_fields (base + shardSize) shardSize)
    by (unfold U64.in_range, U64.MaxUint64, U64.modulus; lia).
  unfold containsBlockNum. cbn [StartBlock EndBlock].
  split; [lia |].
  destruct (Z.leb_spec base n), (Z.leb_spec n (base + shardSize - 1)),
    (Z.leb_spec (base + shardSize) n),
    (Z.leb_spec n (base + shardSize + shardSize - 1));
    cbn;
    (split;
     [split; intros; first [lia | discriminate | reflexivity]
     | first [reflexivity | lia]]).
Qed.

Lemma adjacent_shards_tile_witness :
  let lower := newShardIndex 5000 5000 in
  let upper := newShardIndex (5000 + 5000) 5000 in
  StartBlock upper = EndBlock lower + 1 /\
  (xorb (containsBlockNum lower 9999) (containsBlockNum upper 9999) = true <->
     5000 <= 9999 <= 5000 + 2 * 5000 - 1) /\
  (containsBlockNum lower 9999 && containsBlockNum upper 9999 = false).
Proof.
  apply (adjacent_shards_tile 5000 5000 9999);
    unfold U64.in_range, U64.MaxUint64, U64.modulus; simpl; lia.
Defined.

(** X5: a shard created with shard size 0 holds no block at all, except
    that the one based at block 0 holds block 0. *)
Theorem zero_size_shard base n :
  U64.in_range base ->
  (containsBlockNum (newShardIndex base 0) n = true <-> base = 0 /\ n = 0).
Proof.
  intros Hb. unfold newShardIndex, containsBlockNum.
  destruct (Z.eqb_spec base 0) as [-> | Hne]; cbn [andb Z.eqb StartBlock EndBlock].
  - split.
    + intros Hc. apply andb_true_iff in Hc as [H1 H2].
      apply Z.leb_le in H1. apply Z.leb_le in H2. lia.
    + intros [_ ->]. reflexivity.
  - assert (Hend : U64.sub (U64.add base 0) 1 = base - 1).
    { unfold U64.sub, U64.add. rewrite Z.add_0_r, (wrap_small base) by exact Hb.
      apply wrap_small. unfold U64.in_range, U64.modulus in *. lia. }
    rewrite Hend. split; [| intros [? _]; contradiction].
    intros Hc. apply andb_true_iff in Hc as [H1 H2].
    apply Z.leb_le in H1. apply Z.leb_le in H2. lia.
Qed.

Lemma zero_size_shard_witness :
  containsBlockNum (newShardIndex 7 0) 7 = true <-> 7 = 0 /\ 7 = 0.
Proof.
  apply (zero_size_shard 7 7). unfold U64.in_range, U64.modulus. simpl. lia.
Defined.

End ShardArithmetic.

(** ** Batch look-back of the indexer *)

(** X6: the block the batch file source starts from never wraps below
    zero: it is at most the start block, at most the look-back below it,
    and a start block above 0 never yields block 0. *)
Theorem getBlocksFrom_no_underflow startBlockNum lookback :
  U64.in_range startBlockNum -> U64.in_range lookback ->
  let from := IndexerPipeline.getBlocksFrom startBlockNum lookback in
  U64.in_range from /\
  startBlockNum - lookback <= from <= startBlockNum /\
  (0 < startBlockNum -> 0 < from).
Proof.
  intros Hs Hl. cbv zeta. unfold IndexerPipeline.getBlocksFrom.
  unfold U64.in_range in *.
  destruct (Z.gtb_spec startBlockNum lookback) as [Hgt | Hle].
  - unfold U64.sub. rewrite wrap_small by (unfold U64.in_range; lia). lia.
  - lia.
Qed.

Lemma getBlocksFrom_no_underflow_witness :
  let from := IndexerPipeline.getBlocksFrom 50 100 in
  U64.in_range from /\ 50 - 100 <= from <= 50 /\ (0 < 50 -> 0 < from).
Proof.
  apply (getBlocksFrom_no_underflow 50 100);
    unfold U64.in_range, U64.modulus; simpl; lia.
Defined.

(** ** Archive application *)

Section HighestIrr.
Import ArchivePeers.

Lemma highestIrr_fold peers :
  forall start,
    let r := fold_left (fun irrBlock peer =>
                          if IrrBlock peer >? irrBlock then IrrBlock peer
                          else irrBlock) peers start in
    start <= r /\
    (forall peer, In peer peers -> IrrBlock peer <= r) /\
    (r = start \/ exists peer, In peer peers /\ IrrBlock peer = r).
Proof.
  induction peers as [| p peers IH]; intros start; cbn zeta.
  - simpl. split; [lia |]. split; [intros peer [] | now left].
  - cbn [fold_left].
    set (start' := if IrrBlock p >? start then IrrBlock p else start).
    assert (Hs : start <= start' /\ IrrBlock p <= start' /\
                 (start' = start \/ start' = IrrBlock p)).
    { unfold start'. destruct (Z.gtb_spec (IrrBlock p) start); lia. }
    destruct (IH start') as (Hle & Hall & Hatt). cbn zeta in *.
    split; [lia |]. split.
    + intros peer [<- | Hin]; [lia | now apply Hall].
    + destruct Hatt as [Heq | (peer & Hin & Heq)].
      * destruct Hs as (_ & _ & [Hs | Hs]); [left; lia |].
        right. exists p. split; [now left | lia].
      * right. exists peer. split; [now right | exact Heq].
Qed.

(** X7: [getSearchHighestIrr] returns the greatest irreversible block
    published by a peer, and 0 when there is no peer or none is above 0:
    no peer is above the result, and the result is 0 or the irreversible
    block of one of the peers. *)
Theorem getSearchHighestIrr_greatest peers :
  0 <= getSearchHighestIrr peers /\
  (forall peer, In peer peers -> IrrBlock peer <= getSearchHighestIrr peers) /\
  (getSearchHighestIrr peers = 0 \/
   exists peer, In peer peers /\ IrrBlock peer = getSearchHighestIrr peers).
Proof. apply (highestIrr_fold peers 0). Qed.

End HighestIrr.

Lemma wrap_i64_in_range z : U64.in_range_i64 z -> U64.wrap_i64 z = z.
Proof.
  unfold U64.in_range_i64, U64.half. intros Hz.
  destruct (Z_lt_le_dec z 0) as [Hneg | Hnn].
  - unfold U64.wrap_i64, U64.wrap, U64.to_int64, U64.half, U64.modulus.
    replace (z mod 2 ^ 64) with (z + 2 ^ 64)
      by (apply Z.mod_unique with (q := -1); lia).
    destruct (Z.ltb_spec (z + 2 ^ 64) (2 ^ 63)); lia.
  - apply wrap_i64_small. unfold U64.half. lia.
Qed.

Lemma of_int64_wrap_i64 z : U64.of_int64 (U64.wrap_i64 z) = U64.wrap z.
Proof.
  unfold U64.of_int64, U64.wrap_i64, U64.to_int64, U64.wrap.
  destruct (z mod U64.modulus <? U64.half).
  - apply Z.mod_mod. unfold U64.modulus. lia.
  - rewrite Zminus_mod, Z.mod_same, Z.sub_0_r, !Z.mod_mod
      by (unfold U64.modulus; lia).
    reflexivity.
Qed.

(** X8: [getBlockCount] refuses every start block that is not negative,
    and turns every negative one, the least [int64] included, into its
    absolute value. *)
Theorem getBlockCount_absolute startBlock :
  U64.in_range_i64 startBlock ->
  (0 <= startBlock ->
   exists err, ArchiveApp.getBlockCount startBlock = (0, Some err)) /\
  (startBlock < 0 ->
   ArchiveApp.getBlockCount startBlock = (- startBlock, None)).
Proof.
  intros Hr. unfold ArchiveApp.getBlockCount.
  destruct (Z.leb_spec 0 startBlock) as [Hnn | Hneg]; split; try lia.
  - intros _. eexists. reflexivity.
  - intros _. rewrite of_int64_wrap_i64. f_equal.
    apply wrap_small.
    unfold U64.in_range_i64, U64.in_range, U64.half, U64.modulus in *. lia.
Qed.

Lemma getBlockCount_absolute_witness :
  ArchiveApp.getBlockCount (- U64.half) = (- - U64.half, None).
Proof.
  apply (getBlockCount_absolute (- U64.half));
    unfold U64.in_range_i64, U64.half; simpl; lia.
Defined.

Section ResolvedStartBlock.
Import ArchiveApp.

Variables startBlock shardSize irrBlockNum : Z.
Hypothesis size_pos : 0 < shardSize < U64.half.
Hypothesis irr_small : 0 <= irrBlockNum < U64.half.
Hypothesis start_i64 : U64.in_range_i64 startBlock.

(** A relative start block that lands a whole shard or more below block 0
    is refused. *)
Lemma resolveStartBlock_relative_refused :
  irrBlockNum + startBlock <= - shardSize ->
  exists err,
    resolveStartBlock startBlock shardSize irrBlockNum = Ret (0, Some err).
Proof.
  intros Hlow. unfold resolveStartBlock.
  rewrite (size_as_int64 shardSize size_pos), (size_eqb_zero shardSize size_pos).
  assert (Hneg : startBlock < 0) by lia.
  rewrite (relative_sum_i64 startBlock irrBlockNum irr_small start_i64 Hneg).
  destruct (Z.leb_spec 0 startBlock); [lia |].
  set (x := irrBlockNum + startBlock) in *.
  pose proof (Z.rem_bound_pos_neg x shardSize ltac:(lia) ltac:(lia)) as Hrem.
  assert (Hal : x - Z.rem x shardSize < 0) by lia.
  rewrite wrap_i64_in_range
    by (subst x; unfold U64.in_range_i64, U64.half in *; lia).
  destruct (Z.ltb_spec (x - Z.rem x shardSize) 0); [| lia].
  eexists. reflexivity.
Qed.

(** X9: for shard sizes and irreversible blocks below [2^63], whatever
    [resolveStartBlock] returns without error is a multiple of the shard
    size; it is the start block itself when that is absolute, and at most
    the irreversible block plus the start block (or 0) when it is
    relative.  An error always comes with the value 0. *)
Theorem resolveStartBlock_result_aligned r e :
  resolveStartBlock startBlock shardSize irrBlockNum = Ret (r, e) ->
  (e = None ->
   r mod shardSize = 0 /\
   (0 <= startBlock -> r = startBlock) /\
   (startBlock < 0 -> 0 <= r <= Z.max 0 (irrBlockNum + startBlock))) /\
  (e <> None -> r = 0).
Proof.
  intros Hret.
  destruct (Z_lt_le_dec startBlock 0) as [Hneg | Hnn].
  - destruct (Z_lt_le_dec (irrBlockNum + startBlock) 0) as [Hlow | Hok].
    + destruct (Z_le_gt_dec (irrBlockNum + startBlock) (- shardSize))
        as [Hout | Hwin].
      * destruct (resolveStartBlock_relative_refused Hout) as [err Herr].
        rewrite Herr in Hret. injection Hret as <- <-.
        split; [discriminate | reflexivity].
      * rewrite (resolveStartBlock_relative_window startBlock shardSize
                   irrBlockNum size_pos irr_small start_i64 Hneg) in Hret
          by lia.
        injection Hret as <- <-. split; [| congruence].
        intros _. split; [apply Z.mod_0_l; lia |]. split; lia.
    + pose proof (resolveStartBlock_relative startBlock shardSize irrBlockNum
                    size_pos irr_small start_i64 Hneg Hok) as Hrel.
      cbv zeta in Hrel. rewrite Hrel in Hret. injection Hret as <- <-.
      split; [| congruence]. intros _.
      set (x := irrBlockNum + startBlock) in *.
      pose proof (Z.mod_pos_bound x shardSize ltac:(lia)) as Hm.
      pose proof (Z.div_mod x shardSize ltac:(lia)) as Hd.
      pose proof (Z.mod_le x shardSize ltac:(lia) ltac:(lia)) as Hle.
      split; [| split; lia].
      replace (x - x mod shardSize) with (x / shardSize * shardSize) by lia.
      apply Z.mod_mul. lia.
  - destruct (Z.eq_dec (startBlock mod shardSize) 0) as [Hal | Hmis].
    + rewrite (resolveStartBlock_aligned startBlock shardSize irrBlockNum
                 size_pos start_i64 Hnn Hal) in Hret.
      injection Hret as <- <-. split; [| congruence].
      intros _. split; [exact Hal |]. split; lia.
    + rewrite (resolveStartBlock_misaligned startBlock shardSize irrBlockNum
                 size_pos Hnn Hmis) in Hret.
      injection Hret as <- <-. split; [discriminate | reflexivity].
Qed.

End ResolvedStartBlock.

Lemma resolveStartBlock_result_aligned_witness :
  999000 mod 1000 = 0 /\
  (0 <= -100 -> 999000 = -100) /\
  (-100 < 0 -> 0 <= 999000 <= Z.max 0 (1000000 + -100)).
Proof.
  apply (proj1 (resolveStartBlock_result_aligned (-100) 1000 1000000
                  ltac:(unfold U64.half; lia) ltac:(unfold U64.half; lia)
                  ltac:(unfold U64.in_range_i64, U64.half; lia)
                  999000 None eq_refl)).
  reflexivity.
Defined.

(** X10: [resolveStartBlock] panics (integer division by zero) exactly
    when the shard size is 0, whatever the start block. *)
Theorem resolveStartBlock_panics_iff_zero_shard startBlock shardSize irrBlockNum :
  U64.in_range shardSize ->
  ((exists msg,
      ArchiveApp.resolveStartBlock startBlock shardSize irrBlockNum = Panic msg)
   <-> shardSize = 0).
Proof.
  intros Hr. unfold ArchiveApp.resolveStartBlock.
  assert (Hz : U64.to_int64 shardSize = 0 <-> shardSize = 0).
  { unfold U64.to_int64, U64.in_range, U64.half, U64.modulus in *.
    destruct (Z.ltb_spec shardSize (2 ^ 63)); lia. }
  destruct (Z.eqb_spec (U64.to_int64 shardSize) 0) as [Heq | Hne].
  - split; [intros _; now apply Hz |].
    intros _. destruct (0 <=? startBlock); eexists; reflexivity.
  - split; [| intros Hs; apply Hz in Hs; contradiction].
    intros [msg Hp]. exfalso.
    destruct (0 <=? startBlock).
    + destruct (negb (Z.rem startBlock (U64.to_int64 shardSize) =? 0));
        discriminate.
    + match type of Hp with
      | (if ?c then _ else _) = _ => destruct c; discriminate
      end.
Qed.

Lemma resolveStartBlock_panics_iff_zero_shard_witness :
  (exists msg, ArchiveApp.resolveStartBlock 5000 0 0 = Panic msg) <-> 0 = 0.
Proof.
  apply (resolveStartBlock_panics_iff_zero_shard 5000 0 0).
  unfold U64.in_range, U64.modulus. simpl. lia.
Defined.

(** ** Archive backend: what the stream does with the events *)

Section ArchiveEventsFacts.
Import ArchiveBackend ArchiveEvents.
Context {Match SearchMatch ParsedQuery : Type}.
Variable b : ArchiveBackend Match SearchMatch ParsedQuery.

Lemma streamLoop_returns events :
  existsb isTerminal events = true ->
  exists effs t r, streamLoop b events = Some (effs, t, r).
Proof.
  induction events as [| ev rest IH]; [discriminate |].
  cbn [existsb streamLoop].
  destruct ev as [[e |] canceled | m sendErr | n]; cbn [isTerminal orb].
  - intros _. destruct canceled; eexists _, _, _; reflexivity.
  - intros _. eexists _, _, _; reflexivity.
  - intros Hrest.
    destruct (archiveSearchMatchToProto b m) as [response | e];
      [| eexists _, _, _; reflexivity].
    destruct sendErr as [e |]; [eexists _, _, _; reflexivity |].
    destruct (IH Hrest) as (effs & t & r & ->). eexists _, _, _; reflexivity.
  - intros _. eexists _, _, _; reflexivity.
Qed.

(** X11: once the query reports an error or closes its results, the
    handler returns: with such an event among those it receives,
    [StreamMatches] does not wait for more. *)
Theorem StreamMatches_returns req events :
  existsb isTerminal events = true ->
  exists effs r, StreamMatches b req events = Some (effs, r).
Proof.
  intros Hterm. unfold StreamMatches.
  destruct (rejectUnsupported req); [eexists _, _; reflexivity |].
  destruct (NewParsedQuery b (Query req)); [| eexists _, _; reflexivity].
  destruct (checkBoundaries b req); [eexists _, _; reflexivity |].
  destruct (streamLoop_returns events Hterm) as (effs & t & r & ->).
  eexists _, _; reflexivity.
Qed.

Lemma streamLoop_in_order events :
  forall effs t r,
    streamLoop b events = Some (effs, t, r) ->
    exists pre post,
      events = pre ++ post /\ delivered b pre (sentOf effs) /\
      effs = map Sent (sentOf effs).
Proof.
  induction events as [| ev rest IH]; intros effs t r; cbn [streamLoop];
    [discriminate |].
  assert (Hstop : forall t' r',
             Some (@nil (effect SearchMatch), t', r') = Some (effs, t, r) ->
             exists pre post,
               ev :: rest = pre ++ post /\ delivered b pre (sentOf effs) /\
               effs = map Sent (sentOf effs)).
  { intros t' r' Heq. injection Heq as <- _ _.
    exists [], (ev :: rest). repeat split. constructor. }
  destruct ev as [[e |] canceled | m sendErr | n].
  - destruct canceled; apply Hstop.
  - apply Hstop.
  - destruct (archiveSearchMatchToProto b m) as [response | e] eqn:Hproto;
      [| apply Hstop].
    destruct sendErr as [e |]; [apply Hstop |].
    destruct (streamLoop b rest) as [[[effs' t'] r'] |] eqn:Hrest;
      [| discriminate].
    intros Heq. injection Heq as <- _ _.
    destruct (IH _ _ _ eq_refl) as (pre & post & -> & Hdel & Heffs).
    exists (ResultsRecv m None :: pre), post. split; [reflexivity |].
    split.
    + cbn [sentOf flat_map app]. constructor; [| exact Hdel].
      exists m. now split.
    + cbn [sentOf flat_map app map]. f_equal. exact Heffs.
  - apply Hstop.
Qed.

(** X12: the handler forwards matches in the order they arrive: the
    responses it has sent are the conversions of the events it received
    first, one for one, each a match whose conversion and sending
    succeeded. *)
Theorem StreamMatches_forwards_in_order req events effs r :
  StreamMatches b req events = Some (effs, r) ->
  exists pre post,
    events = pre ++ post /\ delivered b pre (sentOf effs).
Proof.
  unfold StreamMatches.
  assert (Hnone : exists pre post : list (event Match),
             events = pre ++ post /\ delivered b pre []).
  { exists [], events. split; [reflexivity | constructor]. }
  destruct (rejectUnsupported req).
  { intros Heq. injection Heq as <- _. exact Hnone. }
  destruct (NewParsedQuery b (Query req)).
  2: { intros Heq. injection Heq as <- _. exact Hnone. }
  destruct (checkBoundaries b req).
  { intros Heq. injection Heq as <- _. exact Hnone. }
  destruct (streamLoop b events) as [[[effs' t] r'] |] eqn:Hloop;
    [| discriminate].
  intros Heq. injection Heq as <- _.
  destruct (streamLoop_in_order _ _ _ _ Hloop) as (pre & post & -> & Hdel & _).
  exists pre, post. split; [reflexivity |].
  change (sentOf (ParseQuery (Query req) :: RunQuery :: effs' ++ [SetTrailer t]))
    with (sentOf (effs' ++ [SetTrailer t])).
  rewrite (sentOf_app effs' [SetTrailer t]). cbn. now rewrite app_nil_r.
Qed.

Lemma streamLoop_error_origin events :
  forall effs t err,
    streamLoop b events = Some (effs, t, Some err) ->
    In (ErrorsRecv (Some err) false) events \/
    (exists m, In (ResultsRecv m (Some err)) events) \/
    (exists m sendErr e,
       In (ResultsRecv m sendErr) events /\
       archiveSearchMatchToProto b m = inr e /\
       err = Errorf ("unable to obtain search match proto: " +:+ errorMessage e)).
Proof.
  induction events as [| ev rest IH]; intros effs t err; cbn [streamLoop];
    [discriminate |].
  destruct ev as [[e |] canceled | m sendErr | n].
  - destruct canceled; [discriminate |].
    intros Heq. injection Heq as _ _ <-. left. now left.
  - discriminate.
  - destruct (archiveSearchMatchToProto b m) as [response | e] eqn:Hproto.
    + destruct sendErr as [e |].
      * intros Heq. injection Heq as _ _ <-. right. left. exists m. now left.
      * destruct (streamLoop b rest) as [[[effs' t'] r'] |] eqn:Hrest;
          [| discriminate].
        intros Heq. injection Heq as _ _ ->.
        destruct (IH _ _ _ eq_refl)
          as [Hin | [(m' & Hin) | (m' & s' & e' & Hin & Hp & He)]].
        -- left. now right.
        -- right. left. exists m'. now right.
        -- right. right. exists m', s', e'. split; [now right | now split].
    + intros Heq. injection Heq as _ _ <-. right. right.
      exists m, sendErr, e. split; [now left | now split].
  - discriminate.
Qed.

(** X13: an error the handler returns is never of its own making and
    never one the query reported while the request context was canceled: it
    is the error of a guard, of the parser, of the boundary check, of a
    failed send, of a failed conversion (wrapped), or one received from the
    query with the context not canceled. *)
Theorem StreamMatches_error_origin req events effs err :
  StreamMatches b req events = Some (effs, Some err) ->
  errorOrigin b req events err.
Proof.
  unfold StreamMatches, errorOrigin.
  destruct (rejectUnsupported req) as [e |].
  { intros Heq. injection Heq as _ <-. now left. }
  destruct (NewParsedQuery b (Query req)) as [q | e].
  2: { intros Heq. injection Heq as _ <-. right. now left. }
  destruct (checkBoundaries b req) as [e |].
  { intros Heq. injection Heq as _ <-. right. right. now left. }
  destruct (streamLoop b events) as [[[effs' t] r'] |] eqn:Hloop;
    [| discriminate].
  intros Heq. injection Heq as _ ->.
  apply streamLoop_error_origin in Hloop. tauto.
Qed.

End ArchiveEventsFacts.

Lemma StreamMatches_returns_witness :
  exists effs r,
    ArchiveBackend.StreamMatches ArchiveBackend.plainBackend
      ArchiveBackend.plainRequest
      [ArchiveBackend.ResultsRecv 3 None;
       ArchiveBackend.ErrorsRecv (Some ContextCanceled) true] = Some (effs, r).
Proof.
  apply (StreamMatches_returns ArchiveBackend.plainBackend).
  reflexivity.
Defined.

Lemma StreamMatches_forwards_in_order_witness :
  exists pre post,
    [ArchiveBackend.ResultsRecv 3 None; ArchiveBackend.ResultsRecv 7 None;
     ArchiveBackend.ResultsClosed 42] = pre ++ post /\
    ArchiveBackend.delivered ArchiveBackend.plainBackend pre [3; 7].
Proof.
  apply (StreamMatches_forwards_in_order ArchiveBackend.plainBackend
           ArchiveBackend.plainRequest _
           [ArchiveBackend.ParseQuery "account:eosio.token";
            ArchiveBackend.RunQuery; ArchiveBackend.Sent 3;
            ArchiveBackend.Sent 7; ArchiveBackend.SetTrailer "42"] None).
  reflexivity.
Defined.

Lemma StreamMatches_error_origin_witness :
  ArchiveEvents.errorOrigin ArchiveBackend.plainBackend
    ArchiveBackend.plainRequest
    [ArchiveBackend.ResultsRecv 3 None;
     ArchiveBackend.ResultsRecv 7 (Some (Errorf "transport is closing"))]
    (Errorf "transport is closing").
Proof.
  apply (StreamMatches_error_origin ArchiveBackend.plainBackend
           ArchiveBackend.plainRequest _
           [ArchiveBackend.ParseQuery "account:eosio.token";
            ArchiveBackend.RunQuery; ArchiveBackend.Sent 3;
            ArchiveBackend.SetTrailer "-1"]).
  reflexivity.
Defined.

(** ** Archive backend: head-info stream *)

Section HeadInfoStream.
Import ArchiveHeadInfo.

(** X14: [StreamHeadInfo] has one way out, a send that fails: it returns
    exactly when some send fails, with the error of the first such send,
    after one response per earlier turn carrying the pool's last read-only
    indexed block of that turn. *)
Theorem StreamHeadInfo_ends_on_send_error turns sent err :
  StreamHeadInfo turns = Some (sent, err) <->
  exists before lib after,
    turns = before ++ (lib, Some err) :: after /\
    Forall (fun t => snd t = None) before /\
    sent = map (fun t => GetHeadInfo (fst t)) before.
Proof.
  revert sent. induction turns as [| [lib sendErr] rest IH]; intros sent.
  - split; [discriminate |].
    intros (before & lib & after & Heq & _). now destruct before.
  - cbn [StreamHeadInfo]. destruct sendErr as [e |].
    + split.
      * intros Heq. injection Heq as <- <-.
        exists [], lib, rest. repeat split. constructor.
      * intros (before & lib' & after & Heq & Hall & ->).
        destruct before as [| t before].
        -- injection Heq as _ <-. reflexivity.
        -- injection Heq as <- _. apply Forall_cons in Hall as [Hnone _].
           discriminate Hnone.
    + destruct (StreamHeadInfo rest) as [[sent' err'] |] eqn:Hrest.
      * split.
        -- intros Heq. injection Heq as <- <-.
           destruct (proj1 (IH sent') eq_refl)
             as (before & lib' & after & -> & Hall & ->).
           exists ((lib, None) :: before), lib', after.
           repeat split. now constructor.
        -- intros (before & lib' & after & Heq & Hall & ->).
           destruct before as [| t before]; [discriminate Heq |].
           injection Heq as <- Heq. apply Forall_cons in Hall as [_ Hall].
           assert (Hsome : Some (sent', err')
                           = Some (map (fun t => GetHeadInfo (fst t)) before, err)).
           { apply IH. exists before, lib', after. now repeat split. }
           injection Hsome as -> ->. reflexivity.
      * split; [discriminate |].
        intros (before & lib' & after & Heq & Hall & ->).
        destruct before as [| t before]; [discriminate Heq |].
        injection Heq as <- Heq. apply Forall_cons in Hall as [_ Hall].
        assert (Hsome : None
                        = Some (map (fun t => GetHeadInfo (fst t)) before, err)).
        { apply IH. exists before, lib', after. now repeat split. }
        discriminate Hsome.
Qed.

End HeadInfoStream.

(** ** Fork resolver: the block lookup *)

Section BlockLookupFacts.
Import ForkResolver ForkResolverStream.

Lemma insertDescending_numbered n blk blocks :
  List.filter (numbered n) (insertDescending blk blocks) =
  List.filter (numbered n) (blk :: blocks).
Proof.
  induction blocks as [| b rest IH]; [reflexivity |].
  cbn [insertDescending].
  destruct (Z.gtb_spec (Number b) (Number blk)) as [Hgt | _]; [| reflexivity].
  cbn [List.filter] in *. rewrite IH. unfold numbered.
  destruct (Z.eqb_spec (Number blk) n) as [Hn | _]; [| reflexivity].
  destruct (Z.eqb_spec (Number b) n) as [Hb | _]; [lia | reflexivity].
Qed.

(** X15: [sortDescending] is a stable sort: it returns the same blocks,
    in descending order of block number, and blocks of one number stay in
    the order they came in. *)
Theorem sortDescending_stable blocks :
  Permutation (sortDescending blocks) blocks /\
  StronglySorted descendingNumber (sortDescending blocks) /\
  (forall n, List.filter (numbered n) (sortDescending blocks) =
             List.filter (numbered n) blocks).
Proof.
  split; [apply sortDescending_Permutation |].
  split; [apply sortDescending_sorted |].
  intros n. induction blocks as [| blk rest IH]; [reflexivity |].
  unfold sortDescending in *. cbn [fold_right].
  rewrite insertDescending_numbered. cbn [List.filter]. now rewrite IH.
Qed.

Lemma toMap_fold_holds refs id :
  forall m : gmap string bool,
    mapGet m id = true \/ requested refs id ->
    mapGet (fold_left (fun out ref => <[BlockID ref := true]> out) refs m) id = true.
Proof.
  induction refs as [| ref refs IH]; intros m Hin; cbn [fold_left].
  - destruct Hin as [Hm | (ref & [] & _)]. exact Hm.
  - apply IH. unfold mapGet.
    destruct (decide (BlockID ref = id)) as [Heq | Hne].
    + left. rewrite Heq, lookup_insert_eq. reflexivity.
    + rewrite lookup_insert_ne by exact Hne.
      destruct Hin as [Hm | (ref' & [<- | Hin] & Hid)];
        [now left | contradiction | right; now exists ref'].
Qed.

Lemma toMap_lookup_iff refs id :
  mapGet (toMap refs) id = true <-> requested refs id.
Proof.
  split; [apply toMap_requested |].
  intros Hreq. apply toMap_fold_holds. now right.
Qed.

(** X16: the map built from the references reads [true] exactly at the
    ids of the references, and [false] anywhere else. *)
Theorem toMap_reads_requested refs id :
  mapGet (toMap refs) id = true <-> requested refs id.
Proof. apply toMap_lookup_iff. Qed.

Lemma toMap_nonempty refs : refs <> [] -> size (toMap refs) <> 0%nat.
Proof.
  intros Hne Hsize. apply map_size_empty_iff in Hsize.
  destruct refs as [| r0 refs]; [contradiction |].
  assert (Hget : mapGet (toMap (r0 :: refs)) (BlockID r0) = true).
  { apply toMap_lookup_iff. exists r0. split; [now left | reflexivity]. }
  rewrite Hsize in Hget. unfold mapGet in Hget.
  rewrite lookup_empty in Hget. discriminate.
Qed.

(** When the source is done with every requested id, each is among the
    collected blocks, all of which came from the source and from inside the
    lookup window. *)
Lemma runSource_complete refs highest source blocks :
  forall out refsMap out' srcErr,
    runSource highest blocks out refsMap = (out', true, srcErr) ->
    (forall b, In b blocks -> In b source) ->
    (forall id, requested refs id ->
                mapGet refsMap id = true \/ In id (map Id out)) ->
    Forall (fun b => Number b <= U64.add highest MaxLookupBlocks /\ In b source) out ->
    (forall id, requested refs id -> In id (map Id out')) /\
    Forall (fun b => Number b <= U64.add highest MaxLookupBlocks /\ In b source) out' /\
    srcErr = ErrEndOfRange.
Proof.
  induction blocks as [| blk rest IH];
    intros out refsMap out' srcErr Hrun Hsrc Hcover Hwin; cbn [runSource] in Hrun.
  - discriminate.
  - destruct (Z.gtb_spec (Number blk) (U64.add highest MaxLookupBlocks))
      as [Hgt | Hle]; [discriminate |].
    assert (Hdone : forall (m : gmap string bool) o,
               bool_decide (size m = 0%nat) = true ->
               (forall id, requested refs id ->
                           mapGet m id = true \/ In id (map Id o)) ->
               forall id, requested refs id -> In id (map Id o)).
    { intros m o Hsize Hc id Hid. apply bool_decide_eq_true in Hsize.
      apply map_size_empty_iff in Hsize. subst m.
      destruct (Hc id Hid) as [Hget | Hin]; [| exact Hin].
      unfold mapGet in Hget. rewrite lookup_empty in Hget. discriminate. }
    destruct (mapGet refsMap (Id blk)) eqn:Hhit.
    + assert (Hcover' : forall id, requested refs id ->
                 mapGet (delete (Id blk) refsMap) id = true
                 \/ In id (map Id (out ++ [blk]))).
      { intros id Hid. destruct (decide (Id blk = id)) as [<- | Hne].
        - right. rewrite map_app. apply in_or_app. right. now left.
        - destruct (Hcover id Hid) as [Hget | Hin].
          + left. unfold mapGet in *. now rewrite lookup_delete_ne.
          + right. rewrite map_app. apply in_or_app. now left. }
      assert (Hwin' : Forall (fun b => Number b <= U64.add highest MaxLookupBlocks
                                       /\ In b source) (out ++ [blk])).
      { apply Forall_app. split; [exact Hwin |].
        constructor; [| constructor]. split; [lia |]. apply Hsrc. now left. }
      destruct (bool_decide (size (delete (Id blk) refsMap) = 0%nat)) eqn:Hsize.
      * injection Hrun as <- <-. split; [| now split].
        eapply Hdone; eassumption.
      * eapply IH; [exact Hrun | | exact Hcover' | exact Hwin'].
        intros b Hb. apply Hsrc. now right.
    + destruct (bool_decide (size refsMap = 0%nat)) eqn:Hsize.
      * injection Hrun as <- <-. split; [| now split].
        eapply Hdone; eassumption.
      * eapply IH; [exact Hrun | | exact Hcover | exact Hwin].
        intros b Hb. apply Hsrc. now right.
Qed.

(** While no block carries a requested id, the source runs until a block
    beyond the window or the end of the blocks. *)
Lemma runSource_none_found highest blocks :
  forall out (refsMap : gmap string bool),
    (forall b, In b blocks -> mapGet refsMap (Id b) = false) ->
    size refsMap <> 0%nat ->
    runSource highest blocks out refsMap =
      (out, false,
       if existsb (fun b => Number b >? U64.add highest MaxLookupBlocks) blocks
       then notFoundError else missingFilesError).
Proof.
  induction blocks as [| blk rest IH]; intros out refsMap Hmiss Hsize.
  - reflexivity.
  - cbn [runSource existsb].
    destruct (Number blk >? U64.add highest MaxLookupBlocks); [reflexivity |].
    rewrite (Hmiss blk) by now left.
    rewrite bool_decide_eq_false_2 by exact Hsize.
    cbn [orb]. apply IH; [| exact Hsize].
    intros b Hb. apply Hmiss. now right.
Qed.

End BlockLookupFacts.

Section LookupResults.
Import ForkResolver ForkResolverStream.
Context {Match ParsedQuery SingleIndex : Type} `{SearchMatchI Match}.
Variable f : ForkResolver Match ParsedQuery SingleIndex.
Variable stream : ServerStream.

(** X17: when [getBlocksDescending] succeeds, the blocks it returns are
    one block for each requested id and no other, in descending order of
    block number, all handed out by the file source started at the lowest
    requested number and none beyond the lookup window above the highest;
    the irreversible number it reports is the lowest requested number
    minus one. *)
Theorem getBlocksDescending_complete refs blocks libnum :
  getBlocksDescending f stream refs = Ret (blocks, libnum, None) ->
  (forall id, requested refs id <-> In id (map Id blocks)) /\
  NoDup (map Id blocks) /\
  StronglySorted descendingNumber blocks /\
  exists lowest highest,
    boundaries refs = Ret (lowest, highest) /\
    libnum = U64.sub lowest 1 /\
    Forall (fun b => Number b <= U64.add highest MaxLookupBlocks /\
                     In b (blocksFrom f lowest)) blocks.
Proof.
  intros Hret.
  destruct (getBlocksDescending_blocks f stream refs blocks libnum None Hret)
    as (Hsorted & Hnodup & Hreq).
  unfold getBlocksDescending in Hret.
  destruct (boundaries refs) as [[lowest highest] | msg] eqn:Hb; [| discriminate].
  destruct (ctxDone stream) as [err |]; [discriminate |].
  destruct (runSource highest (blocksFrom f lowest) [] (toMap refs))
    as [[out complete] srcErr] eqn:Hrun.
  destruct complete; cbn [negb] in Hret; [| discriminate].
  injection Hret as <- <-.
  apply (runSource_complete refs highest (blocksFrom f lowest)) in Hrun
    as (Hall & Hwin & _).
  - pose proof (sortDescending_Permutation out) as Hperm.
    split; [| split; [exact Hnodup | split; [exact Hsorted |]]].
    + intros id. split.
      * intros Hid. apply Hall in Hid.
        eapply Permutation_in; [| exact Hid].
        apply Permutation_map. symmetry. exact Hperm.
      * intros Hin. apply in_map_iff in Hin as (b & <- & Hb'). now apply Hreq.
    + exists lowest, highest. split; [reflexivity |]. split; [reflexivity |].
      apply List.Forall_forall. intros b Hb'.
      rewrite List.Forall_forall in Hwin. apply Hwin.
      eapply Permutation_in; [exact Hperm | exact Hb'].
  - auto.
  - intros id Hid. left. now apply toMap_lookup_iff.
  - constructor.
Qed.

(** X18: when the file source hands out no block with a requested id,
    [getBlocksDescending] returns no block and an error: the [NotFound]
    status if one of the blocks lies beyond the lookup window, and the
    missing-block-files error of the source otherwise. *)
Theorem getBlocksDescending_none_found refs lowest highest :
  boundaries refs = Ret (lowest, highest) ->
  ctxDone stream = None ->
  (forall b, In b (blocksFrom f lowest) -> ~ requested refs (Id b)) ->
  getBlocksDescending f stream refs =
    Ret ([], 0,
         Some (if existsb (fun b => Number b >? U64.add highest MaxLookupBlocks)
                          (blocksFrom f lowest)
               then notFoundError else missingFilesError)).
Proof.
  intros Hb Hctx Hnone. unfold getBlocksDescending. rewrite Hb, Hctx.
  rewrite runSource_none_found; [reflexivity | |].
  - intros b Hin. destruct (mapGet (toMap refs) (Id b)) eqn:Hget; [| reflexivity].
    apply toMap_lookup_iff in Hget. now apply Hnone in Hget.
  - apply toMap_nonempty. intros ->. discriminate Hb.
Qed.

End LookupResults.

Lemma getBlocksDescending_complete_witness :
  let blocks := [{| ForkResolver.Id := "beef"; ForkResolver.Number := 501 |};
                 {| ForkResolver.Id := "dead"; ForkResolver.Number := 500 |}] in
  (ForkResolver.requested
     (ForkResolver.ForkedBlockRefs ForkResolver.forkRequest) "dead" <->
   In "dead"%string (map ForkResolver.Id blocks)) /\
  NoDup (map ForkResolver.Id blocks) /\
  StronglySorted ForkResolver.descendingNumber blocks.
Proof.
  destruct (getBlocksDescending_complete
              ForkResolver.forkedResolver ForkResolver.quietStream
              (ForkResolver.ForkedBlockRefs ForkResolver.forkRequest)
              [{| ForkResolver.Id := "beef"; ForkResolver.Number := 501 |};
               {| ForkResolver.Id := "dead"; ForkResolver.Number := 500 |}] 499)
    as (Hids & Hnodup & Hsorted & _).
  - vm_compute. reflexivity.
  - cbv zeta. split; [apply Hids | split; assumption].
Defined.

Lemma getBlocksDescending_none_found_witness :
  ForkResolver.getBlocksDescending ForkResolver.canonicalResolver
    ForkResolver.quietStream
    (ForkResolver.ForkedBlockRefs ForkResolver.deadRequest) =
  Ret ([], 0,
       Some (if existsb (fun b => ForkResolver.Number b
                                  >? U64.add 500 ForkResolver.MaxLookupBlocks)
                        (ForkResolver.blocksFrom ForkResolver.canonicalResolver 500)
             then ForkResolver.notFoundError
             else ForkResolver.missingFilesError)).
Proof.
  apply (getBlocksDescending_none_found ForkResolver.canonicalResolver
           ForkResolver.quietStream
           (ForkResolver.ForkedBlockRefs ForkResolver.deadRequest) 500 500).
  - reflexivity.
  - reflexivity.
  - intros b Hin (ref & [<- | []] & Hid). cbn in Hid.
    assert (Hall : forallb (fun b => negb (String.eqb (ForkResolver.Id b) "dead"))
                     (ForkResolver.blocksFrom ForkResolver.canonicalResolver 500)
                   = true) by (vm_compute; reflexivity).
    rewrite forallb_forall in Hall. specialize (Hall b Hin).
    rewrite <- Hid in Hall. rewrite String.eqb_refl in Hall. discriminate.
Defined.

(** ** Fork resolver: what goes out on the stream *)

Section StreamHistory.
Import ForkResolver ForkResolverStream.
Context {Match ParsedQuery SingleIndex : Type} `{SearchMatchI Match}.
Variable f : ForkResolver Match ParsedQuery SingleIndex.
Variable stream : ServerStream.

Lemma cleanHistory_nil : cleanHistory stream [].
Proof. intros before pb after Heq. now destruct before. Qed.

Lemma cleanHistory_snoc sent pb :
  cleanHistory stream sent ->
  ctxErr stream sent = false -> Send stream sent pb = None ->
  cleanHistory stream (sent ++ [pb]).
Proof.
  intros Hclean Hctx Hsend before x after Heq.
  destruct (exists_last (l := x :: after) ltac:(discriminate))
    as (init & y & Hlast).
  destruct init as [| x' init].
  - injection Hlast as <- ->.
    apply app_inj_tail in Heq as [<- <-]. now split.
  - injection Hlast as <- ->.
    change (before ++ x :: init ++ [y]) with (before ++ (x :: init) ++ [y]) in Heq.
    rewrite app_assoc in Heq. apply app_inj_tail in Heq as [-> _].
    now apply (Hclean before x init).
Qed.

Lemma emitMatches_clean blk libnum visited :
  forall sent,
    cleanHistory stream sent ->
    cleanHistory stream (emitted (emitMatches stream blk libnum visited sent)).
Proof.
  induction visited as [| m visited IH]; intros sent Hclean; cbn [emitMatches].
  - exact Hclean.
  - destruct (FillProtoSpecific m (newUndoMatch blk libnum m) blk) as [pb err].
    destruct err as [e |]; [exact Hclean |].
    destruct (ctxErr stream sent) eqn:Hctx; [exact Hclean |].
    destruct (Send stream sent pb) as [e |] eqn:Hsend; [exact Hclean |].
    apply IH. now apply cleanHistory_snoc.
Qed.

Lemma streamBlocks_clean q libnum blocks :
  forall sent,
    cleanHistory stream sent ->
    cleanHistory stream (fst (streamBlocks f stream q libnum blocks sent)).
Proof.
  induction blocks as [| blk rest IH]; intros sent Hclean; cbn [streamBlocks].
  - exact Hclean.
  - destruct (createSingleIndex f blk) as [idx | err]; [| exact Hclean].
    destruct (RunSingleIndexQuery f q idx) as [matches | err];
      [| destruct (isContextCanceled err); exact Hclean].
    pose proof (emitMatches_clean blk libnum (rev matches) sent Hclean) as Hemit.
    destruct (emitMatches stream blk libnum (rev matches) sent)
      as [sent' | [sent' r]]; cbn [emitted] in Hemit.
    + now apply IH.
    + exact Hemit.
Qed.

(** X19: every match [StreamUndoMatches] has put on the stream went out
    at a moment when the request context reported no error and its send
    returned none; in particular nothing is sent once the context is done
    or a send has failed, and nothing at all when the context is done from
    the start. *)
Theorem StreamUndoMatches_clean_history req sent r :
  StreamUndoMatches f stream req = Ret (sent, r) ->
  cleanHistory stream sent /\
  (ctxErr stream [] = true -> sent = []).
Proof.
  intros Hrun.
  assert (Hclean : cleanHistory stream sent).
  { unfold StreamUndoMatches in Hrun.
    destruct (List.length (ForkedBlockRefs req) =? 0)%nat.
    { injection Hrun as <- _. apply cleanHistory_nil. }
    destruct (NewParsedQuery f (Query req)) as [q | err].
    2: { destruct (isContextCanceled err); injection Hrun as <- _;
           apply cleanHistory_nil. }
    destruct (getBlocksDescending f stream (ForkedBlockRefs req))
      as [[[blocks libnum] e] | msg]; [| discriminate].
    injection Hrun as Hrun.
    pose proof (streamBlocks_clean q libnum blocks [] cleanHistory_nil) as Hc.
    now rewrite Hrun in Hc. }
  split; [exact Hclean |].
  intros Hdone. destruct sent as [| pb sent]; [reflexivity |].
  destruct (Hclean [] pb sent eq_refl) as [Hctx _]. congruence.
Qed.

End StreamHistory.

Lemma StreamUndoMatches_clean_history_witness :
  ForkResolverStream.cleanHistory ForkResolver.quietStream
    (fst (ForkResolver.streamBlocks ForkResolver.forkedResolver
            ForkResolver.quietStream "account:eosio.token"%string 499
            [{| ForkResolver.Id := "beef"; ForkResolver.Number := 501 |};
             {| ForkResolver.Id := "dead"; ForkResolver.Number := 500 |}] [])) /\
  (ForkResolver.ctxErr ForkResolver.quietStream [] = true ->
   fst (ForkResolver.streamBlocks ForkResolver.forkedResolver
          ForkResolver.quietStream "account:eosio.token"%string 499
          [{| ForkResolver.Id := "beef"; ForkResolver.Number := 501 |};
           {| ForkResolver.Id := "dead"; ForkResolver.Number := 500 |}] []) = []).
Proof.
  apply (StreamUndoMatches_clean_history ForkResolver.forkedResolver
           ForkResolver.quietStream ForkResolver.forkRequest _ None).
  vm_compute. reflexivity.
Defined.

(** ** Live application: the start block *)

Section LiveStart.
Import LiveApp.

Lemma startBlockFromDmesh_at_least_2 lib start :
  startBlockFromDmesh lib = Some start -> 2 <= Num start.
Proof.
  unfold startBlockFromDmesh. destruct lib as [sb |]; [| discriminate].
  destruct (Z.ltb_spec (Num sb) 2); intros Heq; injection Heq as <-;
    [simpl; lia | exact H].
Qed.

Lemma startBlockFromDmesh_in_range lib start :
  numberInRange lib -> startBlockFromDmesh lib = Some start ->
  U64.in_range (Num start).
Proof.
  unfold startBlockFromDmesh, numberInRange.
  destruct lib as [sb |]; [| discriminate].
  intros Hr. destruct (Num sb <? 2); intros Heq; injection Heq as <-;
    [unfold U64.in_range, U64.modulus; simpl; lia | exact Hr].
Qed.

Lemma closeAhead_bounds tolerance from fromArchive :
  U64.in_range (Num from) -> U64.in_range (Num fromArchive) ->
  closeAhead tolerance from fromArchive = true ->
  Num fromArchive <= Num from < Num fromArchive + tolerance.
Proof.
  unfold closeAhead. intros Hf Ha Hclose.
  apply andb_true_iff in Hclose as [Hge Hlt].
  apply Z.geb_le in Hge. apply Z.ltb_lt in Hlt.
  unfold U64.sub in Hlt.
  rewrite wrap_small in Hlt by (unfold U64.in_range in *; lia). lia.
Qed.

(** X20: [getStartBlock] only ever starts from the irreversible block of
    the archive, raised to block 2 if below, and only in a turn where the
    application is not terminating and the network's irreversible block
    (the stream's, when the network's is unknown) is at or ahead of it by
    less than the drift tolerance; its only error is the abort on
    termination, which comes without a start block. *)
Theorem getStartBlock_from_archive tolerance turns ref err :
  Forall turnInRange turns ->
  getStartBlock tolerance turns = Some (ref, err) ->
  (ref = None /\ err = Some LiveAppStartAborted /\
   exists t, In t turns /\ isTerminating t = true) \/
  (err = None /\
   exists start t from,
     ref = Some start /\ In t turns /\ isTerminating t = false /\
     startBlockFromDmesh (meshLIB t) = Some start /\
     reference t = Some from /\
     2 <= Num start <= Num from /\ Num from < Num start + tolerance).
Proof.
  intros Hrange. induction turns as [| t rest IH]; cbn [getStartBlock];
    [discriminate |].
  apply Forall_cons in Hrange as [(Hmesh & Hstream & Hnet) Hrange].
  assert (Hlater : getStartBlock tolerance rest = Some (ref, err) ->
            (ref = None /\ err = Some LiveAppStartAborted /\
             exists t', In t' (t :: rest) /\ isTerminating t' = true) \/
            (err = None /\
             exists start t' from,
               ref = Some start /\ In t' (t :: rest) /\
               isTerminating t' = false /\
               startBlockFromDmesh (meshLIB t') = Some start /\
               reference t' = Some from /\
               2 <= Num start <= Num from /\ Num from < Num start + tolerance)).
  { intros Hrest.
    destruct (IH Hrange Hrest)
      as [(Hr & He & t' & Hin & Ht) | (He & start & t' & from & Hr & Hin & Hrem)].
    - left. split; [exact Hr |]. split; [exact He |].
      exists t'. split; [now right | exact Ht].
    - right. split; [exact He |]. exists start, t', from.
      split; [exact Hr |]. split; [now right | exact Hrem]. }
  destruct (isTerminating t) eqn:Hterm.
  { intros Heq. injection Heq as <- <-. left. repeat split.
    exists t. split; [now left | exact Hterm]. }
  destruct (startBlockFromDmesh (meshLIB t)) as [fromArchive |] eqn:Harch;
    [| exact Hlater].
  pose proof (startBlockFromDmesh_at_least_2 _ _ Harch) as H2.
  pose proof (startBlockFromDmesh_in_range _ _ Hmesh Harch) as Hra.
  assert (Hstart : forall from,
             reference t = Some from -> U64.in_range (Num from) ->
             closeAhead tolerance from fromArchive = true ->
             Some (Some fromArchive, @None error) = Some (ref, err) ->
             err = None /\
             exists start t' from',
               ref = Some start /\ In t' (t :: rest) /\
               isTerminating t' = false /\
               startBlockFromDmesh (meshLIB t') = Some start /\
               reference t' = Some from' /\
               2 <= Num start <= Num from' /\ Num from' < Num start + tolerance).
  { intros from Href Hrf Hclose Heq. injection Heq as <- <-.
    split; [reflexivity |]. exists fromArchive, t, from.
    pose proof (closeAhead_bounds _ _ _ Hrf Hra Hclose) as Hb.
    repeat split; try assumption; try lia. now left. }
  unfold reference in Hstart.
  destruct (streamLIB t) as [fromStream |]; [| exact Hlater].
  destruct (networkLIB t) as [fromNetwork |].
  - destruct (closeAhead tolerance fromNetwork fromArchive) eqn:Hclose;
      [| exact Hlater].
    intros Heq. right. exact (Hstart fromNetwork eq_refl Hnet Hclose Heq).
  - destruct (closeAhead tolerance fromStream fromArchive) eqn:Hclose;
      [| exact Hlater].
    intros Heq. right. exact (Hstart fromStream eq_refl Hstream Hclose Heq).
Qed.

End LiveStart.

Lemma getStartBlock_from_archive_witness :
  (@None LiveApp.BlockRef = Some (LiveApp.NewBlockRef "00000f3ca" 3900) /\
   @None error = Some LiveApp.LiveAppStartAborted /\
   exists t, In t LiveApp.sampleTurns /\ LiveApp.isTerminating t = true) \/
  (@None error = None /\
   exists start t from,
     Some (LiveApp.NewBlockRef "00000f3ca" 3900) = Some start /\
     In t LiveApp.sampleTurns /\ LiveApp.isTerminating t = false /\
     LiveApp.startBlockFromDmesh (LiveApp.meshLIB t) = Some start /\
     LiveApp.reference t = Some from /\
     2 <= LiveApp.Num start <= LiveApp.Num from /\
     LiveApp.Num from < LiveApp.Num start + 200).
Proof.
  assert (Hshape :
    forall ref err,
      LiveApp.getStartBlock 200 LiveApp.sampleTurns = Some (ref, err) ->
      (ref = None /\ err = Some LiveApp.LiveAppStartAborted /\
       exists t, In t LiveApp.sampleTurns /\ LiveApp.isTerminating t = true) \/
      (err = None /\
       exists start t from,
         ref = Some start /\ In t LiveApp.sampleTurns /\
         LiveApp.isTerminating t = false /\
         LiveApp.startBlockFromDmesh (LiveApp.meshLIB t) = Some start /\
         LiveApp.reference t = Some from /\
         2 <= LiveApp.Num start <= LiveApp.Num from /\
         LiveApp.Num from < LiveApp.Num start + 200)).
  { intros ref err.
    apply (getStartBlock_from_archive 200 LiveApp.sampleTurns ref err).
    repeat constructor; unfold U64.in_range, U64.modulus; simpl; lia. }
  destruct (Hshape (Some (LiveApp.NewBlockRef "00000f3ca" 3900)) None eq_refl)
    as [(Hr & _) | Hok]; [discriminate Hr | right; exact Hok].
Defined.

(** ** Indexer application: the target start block *)

Section IndexerTarget.
Import IndexerApp.

(** X21: in batch mode the indexer application refuses a negative start
    block and otherwise targets the start block exactly as configured,
    whatever the store lists; in live mode, with an absolute start block, a
    positive shard size and a listing at hand, it targets a multiple of the
    shard size no lower than the shard the start block lies in.  In both
    cases the other results are those of the start-block resolver at the
    target. *)
Theorem IndexerApp_target config listing info Resolve :
  U64.in_range_i64 (StartBlock config) ->
  (EnableBatchMode config = true ->
   (StartBlock config < 0 ->
    resolveStartBlock config listing info Resolve =
      Ret (0, 0, EmptyString,
           Some (Errorf "invalid negative start block in batch mode"))) /\
   (0 <= StartBlock config ->
    exists fs id e,
      Resolve (StartBlock config) = (fs, id, e) /\
      resolveStartBlock config listing info Resolve =
        Ret (StartBlock config, fs, id, e))) /\
  (EnableBatchMode config = false ->
   0 <= StartBlock config -> 0 < ShardSize config ->
   forall remote, listing = Some remote ->
   exists target fs id e,
     Resolve target = (fs, id, e) /\
     resolveStartBlock config listing info Resolve =
       Ret (target, fs, id, e) /\
     target mod ShardSize config = 0 /\
     StartBlock config - ShardSize config < target).
Proof.
  intros Hstart.
  assert (Hconv : 0 <= StartBlock config ->
                  U64.of_int64 (StartBlock config) = StartBlock config
                  /\ U64.in_range (StartBlock config)).
  { intros Hnn.
    assert (Hr : U64.in_range (StartBlock config))
      by (unfold U64.in_range_i64, U64.in_range, U64.half, U64.modulus in *;
          lia).
    split; [now apply wrap_small | exact Hr]. }
  assert (Hfinish : forall target,
            exists fs id e,
              Resolve target = (fs, id, e) /\
              (let '(fs, id, e) := Resolve target in
               Ret (target, fs, id, e)) = Ret (target, fs, id, e)).
  { intros target. destruct (Resolve target) as [[fs id] e].
    now exists fs, id, e. }
  unfold resolveStartBlock. split.
  - intros ->. split.
    + intros Hneg. destruct (Z.ltb_spec (StartBlock config) 0); [reflexivity | lia].
    + intros Hnn. destruct (Z.ltb_spec (StartBlock config) 0); [lia |].
      destruct (Hconv Hnn) as [-> _]. apply Hfinish.
  - intros Hlive Hnn Hsize remote ->. rewrite Hlive.
    destruct (Z.leb_spec 0 (StartBlock config)); [| lia].
    destruct (Hconv ltac:(lia)) as [-> Hr].
    destruct (nextBase_multiple_forward (ShardSize config) remote
                (StartBlock config) Hsize Hr)
      as (next & aligned & -> & Hal & Hmod & Hle).
    destruct (Hfinish next) as (fs & id & e & Hres & Heq).
    exists next, fs, id, e. split; [exact Hres |]. split; [exact Heq |].
    split; [exact Hmod |].
    destruct (align_within_shard (ShardSize config)
                (StartBlock config) Hsize Hr) as (r & Hr' & _ & Hb).
    rewrite Hal in Hr'. injection Hr' as <-. lia.
Qed.

End IndexerTarget.

Lemma IndexerApp_target_witness :
  exists target fs id e,
    IndexerApp.sameBlockResolver target = (fs, id, e) /\
    IndexerApp.resolveStartBlock IndexerApp.liveConfig
      (Some ShardModel.gapListing) (IndexerApp.Lib 0)
      IndexerApp.sameBlockResolver = Ret (target, fs, id, e) /\
    target mod 5000 = 0 /\
    1234 - 5000 < target.
Proof.
  apply (proj2 (IndexerApp_target IndexerApp.liveConfig
                  (Some ShardModel.gapListing) (IndexerApp.Lib 0)
                  IndexerApp.sameBlockResolver
                  ltac:(unfold U64.in_range_i64, U64.half; simpl; lia)))
    with (remote := ShardModel.gapListing);
    try reflexivity; simpl; lia.
Defined.
